(** * Time-series analysis engine: a shallow embedding of
      [backend/utils/time_series.py] (class [TimeSeriesAnalyzer]).

    Conventions of the embedding.

    - Python numbers are rationals ([Q]): arithmetic is exact, rounding is
      not modelled.  The exceptional values that the code tests for or
      produces by a numpy division (NaN, infinities) are kept, in the type
      [float] below.
    - A Python call either returns or raises: [exc A].  [try: ... except
      Exception as e: ...] is [try_except].
    - numpy/statsmodels routines that are not part of the repository are
      the fields of the class [Numerics]; the analyzer is written over an
      arbitrary instance, the way the Python class is written over its
      imports. *)

From Stdlib Require Import String.
From Stdlib Require Import QArith Qabs ZArith Lia Lqa List Bool Sorted.
Import ListNotations.

Open Scope Q_scope.

(** ** Python outcomes *)

Inductive exn : Type :=
| ZeroDivisionError
| TypeError (msg : string)
| ValueError (msg : string)
| LinAlgError (msg : string)
| IndexError (msg : string).

(** [str(e)] *)
Definition str_exn (e : exn) : string :=
  match e with
  | ZeroDivisionError => "division by zero"
  | TypeError m => m
  | ValueError m => m
  | LinAlgError m => m
  | IndexError m => m
  end%string.

Inductive exc (A : Type) : Type :=
| Ret (a : A)
| Raise (e : exn).
Arguments Ret {A} a.
Arguments Raise {A} e.

Definition bind {A B} (c : exc A) (k : A -> exc B) : exc B :=
  match c with
  | Ret a => k a
  | Raise e => Raise e
  end.

Definition try_except {A} (body : exc A) (handler : exn -> exc A) : exc A :=
  match body with
  | Ret a => Ret a
  | Raise e => handler e
  end.

Declare Scope exc_scope.
Delimit Scope exc_scope with exc.
Notation "x <- c ;; k" := (bind c (fun x => k))
  (at level 61, c at next level, right associativity) : exc_scope.
Notation "' pat <- c ;; k" := (bind c (fun x => match x with pat => k end))
  (at level 61, pat pattern, c at next level, right associativity) : exc_scope.
Open Scope exc_scope.

(** ** Numbers *)

Definition Qltb (x y : Q) : bool := negb (Qle_bool y x).
Definition Qmax0 (x : Q) : Q := if Qltb 0 x then x else 0.

(** A float that may be exceptional: the result of a numpy division, an
    information criterion, a running best score. *)
Inductive float : Type :=
| Fin (q : Q)
| Inf (negative : bool)
| NaN.

Definition pos_inf : float := Inf false.

(** [a < b] on floats; every comparison with NaN is false. *)
Definition float_lt (a b : float) : bool :=
  match a, b with
  | Fin x, Fin y => Qltb x y
  | Fin _, Inf neg => negb neg
  | Inf neg, Fin _ => neg
  | Inf n1, Inf n2 => n1 && negb n2
  | _, _ => false
  end.

(** numpy's [x / y] on float64: no exception, the IEEE result. *)
Definition np_div (x y : Q) : float :=
  if Qeq_bool y 0 then
    (if Qeq_bool x 0 then NaN else Inf (Qltb x 0))
  else Fin (x / y).

(** Python's [x / y] on numbers. *)
Definition py_div (x y : Q) : exc Q :=
  if Qeq_bool y 0 then Raise ZeroDivisionError else Ret (x / y).

Definition math_isnan (z : float) : bool :=
  match z with NaN => true | _ => false end.

(** [abs(z) > t] *)
Definition float_abs_gt (z : float) (t : Q) : bool :=
  match z with
  | Fin q => Qltb t (Qabs q)
  | Inf _ => true
  | NaN => false
  end.

(** [z > 0] *)
Definition float_pos (z : float) : bool := float_lt (Fin 0) z.

(** ** numpy reductions *)

Definition np_sum (l : list Q) : Q := fold_right Qplus 0 l.

Definition Qlen {A} (l : list A) : Q := inject_Z (Z.of_nat (length l)).

(** [np.mean]; on an empty array numpy gives NaN (with a warning), which
    no caller below reaches: the empty case is given 0. *)
Definition np_mean (l : list Q) : Q := np_sum l / Qlen l.

(** [np.arange(n)] and [np.arange(a, a + n)] *)
Definition arange_from (a n : nat) : list Q :=
  map (fun i => inject_Z (Z.of_nat i)) (seq a n).
Definition np_arange (n : nat) : list Q := arange_from 0 n.

Definition sq (x : Q) : Q := x * x.

(** [np.var] (population variance, ddof = 0) *)
Definition np_var (l : list Q) : Q :=
  np_mean (map (fun v => sq (v - np_mean l)) l).

(** elementwise product of two arrays *)
Fixpoint zip_mul (xs ys : list Q) : list Q :=
  match xs, ys with
  | x :: xs', y :: ys' => x * y :: zip_mul xs' ys'
  | _, _ => []
  end.

(** The least-squares line through the points [(x_i, y_i)]: what
    [np.polyfit(x, y, 1)] computes in exact arithmetic, as [(slope,
    intercept)].  numpy raises TypeError on an empty [x] and on arrays of
    different lengths.  A rank-deficient system (all [x_i] equal) gets
    numpy's minimum-norm answer only approximately here (slope 0); the
    analyzer never builds one, its [x] being [arange(n)] with [n >= 2]. *)
Definition cov_num (xs ys : list Q) : Q :=
  Qlen xs * np_sum (zip_mul xs ys) - np_sum xs * np_sum ys.

Definition least_squares (xs ys : list Q) : exc (Q * Q) :=
  match xs with
  | [] => Raise (TypeError "expected non-empty vector for x")
  | _ =>
    if negb (Nat.eqb (length xs) (length ys)) then
      Raise (TypeError "expected x and y to have same length")
    else
      let d := cov_num xs xs in
      let slope := if Qeq_bool d 0 then 0 else cov_num xs ys / d in
      Ret (slope, (np_sum ys - slope * np_sum xs) / Qlen xs)
  end.

(** ** statsmodels interfaces *)

Inductive component : Type := add | mul.
Inductive decomposition_model : Type := additive | multiplicative.

(** The result of [seasonal_decompose]: trend and residual carry NaN
    ([None]) at the edges where the moving average is undefined. *)
Record DecomposeResult : Type := {
  dr_trend : list (option Q);
  dr_seasonal : list Q;
  dr_resid : list (option Q)
}.

(** A fitted model: its AIC and its [forecast(steps)] method. *)
Record FitResult : Type := {
  aic : float;
  fit_forecast : nat -> exc (list Q)
}.

(** The imports of the module. *)
Class Numerics : Type := {
  (** [np.sqrt] *)
  np_sqrt : Q -> Q;
  (** [np.polyfit(x, y, 1)], unpacked as [slope, intercept] *)
  np_polyfit : list Q -> list Q -> exc (Q * Q);
  (** [seasonal_decompose(ts, model=, period=)] *)
  seasonal_decompose :
    list Q -> decomposition_model -> nat -> exc DecomposeResult;
  (** [ExponentialSmoothing(ts, trend=, seasonal=, seasonal_periods=).fit()] *)
  ets_fit :
    list Q -> option component -> option component -> option nat ->
    exc FitResult;
  (** [ARIMA(ts, order=(p, d, q)).fit()] *)
  arima_fit : list Q -> nat * nat * nat -> exc FitResult
}.

(** [np.std] (ddof = 0) *)
Definition np_std {N : Numerics} (l : list Q) : Q := np_sqrt (np_var l).

(** [Series.dropna()] *)
Fixpoint dropna (l : list (option Q)) : list Q :=
  match l with
  | [] => []
  | Some v :: t => v :: dropna t
  | None :: t => dropna t
  end.

(** ** analyze_trend *)

Inductive direction_t : Type := stable | increasing | decreasing.

Record TrendResult : Type := {
  slope : Q;
  intercept : Q;
  r_squared : Q;
  direction : direction_t;
  percentage_change : Q;
  start_value : Q;
  end_value : Q;
  data_points : nat
}.

(** The dict a public method returns: its normal result, or
    [{'error': message}]. *)
Inductive result (A : Type) : Type :=
| Ok (r : A)
| ErrorDict (msg : string).
Arguments Ok {A} r.
Arguments ErrorDict {A} msg.

(** [data[0]] and [data[-1]]; the default 0 is never returned on the
    paths below: the length guard precedes them. *)
Definition first (data : list Q) : Q := hd 0 data.
Definition last_value (data : list Q) : Q := last data 0.

Definition analyze_trend_body {N : Numerics} (data : list Q)
  : exc (result TrendResult) :=
  if (length data <? 2)%nat then
    Ret (ErrorDict "Insufficient data for trend analysis")
  else
    let x := np_arange (length data) in
    let y := data in
    '(slope, intercept) <- np_polyfit x y ;;
    let y_pred := map (fun xi => slope * xi + intercept) x in
    let ss_tot := np_sum (map (fun yi => sq (yi - np_mean y)) y) in
    let ss_res := np_sum (map (fun p => sq (fst p - snd p)) (combine y y_pred)) in
    let r_squared := if Qltb 0 ss_tot then 1 - ss_res / ss_tot else 0 in
    let direction :=
      if Qltb (Qabs slope) (1 # 100) then stable
      else if Qltb 0 slope then increasing
      else decreasing in
    percentage_change <-
      (if (2 <=? length data)%nat then
         q <- py_div (last_value data - first data) (first data) ;;
         Ret (q * 100)
       else Ret 0) ;;
    Ret (Ok {| slope := slope;
               intercept := intercept;
               r_squared := r_squared;
               direction := direction;
               percentage_change := percentage_change;
               start_value := first data;
               end_value := last_value data;
               data_points := length data |}).

Definition analyze_trend {N : Numerics} (data : list Q)
  : exc (result TrendResult) :=
  try_except (analyze_trend_body data)
             (fun e => Ret (ErrorDict (str_exn e))).

(** ** detect_seasonality and decompose_time_series *)

(** One iteration of the period search of [detect_seasonality]:
    [best] is [(best_period, best_score)]. *)
Definition try_period {N : Numerics} (ts : list Q) (best : nat * float)
           (p : nat) : nat * float :=
  if (2 * p <=? length ts)%nat then
    match seasonal_decompose ts additive p with
    | Raise _ => best
    | Ret decomposition =>
      let seasonal := dr_seasonal decomposition in
      let residual := dropna (dr_resid decomposition) in
      if (0 <? length residual)%nat then
        let seasonal_var := np_var seasonal in
        let residual_var := np_var residual in
        if Qltb 0 residual_var then
          let score := np_div residual_var seasonal_var in
          if float_lt score (snd best) then (p, score) else best
        else best
      else best
    end
  else best.

Definition periods_to_try : list nat := [12; 4]%nat.

Definition auto_detect_period {N : Numerics} (ts : list Q) : nat :=
  fst (fold_left (try_period ts) periods_to_try (12%nat, pos_inf)).

Record SeasonalityResult : Type := {
  se_period : nat;
  seasonal_strength : float;
  significant_seasonality : bool;
  seasonal_pattern : list (nat * Q);
  se_trend : list Q;
  se_seasonal : list Q;
  se_residual : list Q
}.

Definition detect_seasonality {N : Numerics} (data : list Q)
           (period : option nat) : exc (result SeasonalityResult) :=
  try_except
    (if (length data <? 24)%nat then
       Ret (ErrorDict "Insufficient data for seasonality analysis")
     else
       let ts := data in
       let period :=
         match period with
         | None => auto_detect_period ts
         | Some p => p
         end in
       decomposition <- seasonal_decompose ts additive period ;;
       let trend := dropna (dr_trend decomposition) in
       let seasonal := dr_seasonal decomposition in
       let residual := dropna (dr_resid decomposition) in
       let seasonal_strength :=
         if (0 <? length residual)%nat then
           let seasonal_var := np_var seasonal in
           let residual_var := np_var residual in
           if Qltb 0 residual_var then
             np_div seasonal_var (seasonal_var + residual_var)
           else Fin 0
         else Fin 0 in
       Ret (Ok {| se_period := period;
                  seasonal_strength := seasonal_strength;
                  significant_seasonality :=
                    float_lt (Fin (6 # 10)) seasonal_strength;
                  seasonal_pattern := combine (seq 0 period) seasonal;
                  se_trend := trend;
                  se_seasonal := seasonal;
                  se_residual := residual |}))
    (fun e => Ret (ErrorDict (str_exn e))).

Record Decomposition : Type := {
  de_trend : list Q;
  de_seasonal : list Q;
  de_residual : list Q;
  de_period : nat;
  de_model : decomposition_model
}.

Definition decompose_time_series {N : Numerics} (data : list Q)
           (period : option nat) (model : decomposition_model)
  : exc (result Decomposition) :=
  try_except
    (if (length data <? 24)%nat then
       Ret (ErrorDict "Insufficient data for time series decomposition")
     else
       let ts := data in
       let period :=
         match period with
         | None => 12%nat
         | Some p => p
         end in
       decomposition <- seasonal_decompose ts model period ;;
       Ret (Ok {| de_trend := dropna (dr_trend decomposition);
                  de_seasonal := dr_seasonal decomposition;
                  de_residual := dropna (dr_resid decomposition);
                  de_period := period;
                  de_model := model |}))
    (fun e => Ret (ErrorDict (str_exn e))).

(** ** detect_anomalies *)

(** The trailing window of [w] observations that ends at position [i];
    [None] while the window is not yet full (pandas: [min_periods = w]). *)
Definition window_at (w : nat) (ts : list Q) (i : nat) : option (list Q) :=
  if (i + 1 <? w)%nat then None
  else Some (firstn w (skipn (i + 1 - w) ts)).

(** [ts.rolling(window=w).mean()] *)
Definition rolling_mean (w : nat) (ts : list Q) : list (option Q) :=
  map (fun i => option_map np_mean (window_at w ts i)) (seq 0 (length ts)).

(** Sample variance (ddof = 1) of a window; NaN for fewer than two
    observations. *)
Definition sample_var (l : list Q) : option Q :=
  if (length l <? 2)%nat then None
  else Some (np_sum (map (fun v => sq (v - np_mean l)) l) / (Qlen l - 1)).

(** [ts.rolling(window=w).std()] *)
Definition rolling_std {N : Numerics} (w : nat) (ts : list Q)
  : list (option Q) :=
  map (fun i =>
         match window_at w ts i with
         | Some l => option_map np_sqrt (sample_var l)
         | None => None
         end)
      (seq 0 (length ts)).

(** [(ts - rolling_mean) / rolling_std], elementwise; NaN propagates. *)
Fixpoint z_score_series (ts : list Q) (means stds : list (option Q))
  : list float :=
  match ts, means, stds with
  | x :: ts', m :: means', s :: stds' =>
    match m, s with
    | Some mv, Some sv => np_div (x - mv) sv
    | _, _ => NaN
    end :: z_score_series ts' means' stds'
  | _, _, _ => []
  end.

Inductive anomaly_type : Type := high | low.

Record Anomaly : Type := {
  an_index : nat;
  an_value : Q;
  an_z_score : float;
  an_type : anomaly_type
}.

Record AnomalyResult : Type := {
  anomalies : list Anomaly;
  anomaly_indices : list nat;
  anomaly_rate : Q;
  an_threshold : Q;
  z_scores : list float
}.

(** The scan [for i, z_score in enumerate(z_scores)], from position [i]. *)
Fixpoint scan_anomalies (data : list Q) (threshold : Q) (i : nat)
         (zs : list float) : list Anomaly :=
  match zs with
  | [] => []
  | z_score :: zs' =>
    if negb (math_isnan z_score) && float_abs_gt z_score threshold then
      {| an_index := i;
         an_value := nth i data 0;
         an_z_score := z_score;
         an_type := if float_pos z_score then high else low |}
        :: scan_anomalies data threshold (S i) zs'
    else scan_anomalies data threshold (S i) zs'
  end.

(** [Series.fillna(0)] *)
Definition fillna0 (zs : list float) : list float :=
  map (fun z => match z with NaN => Fin 0 | _ => z end) zs.

Definition anomaly_z_scores {N : Numerics} (data : list Q) : list float :=
  let ts := data in
  let window := Nat.min 12 (length ts / 3) in
  z_score_series ts (rolling_mean window ts) (rolling_std window ts).

Definition detect_anomalies {N : Numerics} (data : list Q) (threshold : Q)
  : exc (result AnomalyResult) :=
  try_except
    (if (length data <? 3)%nat then
       Ret (ErrorDict "Insufficient data for anomaly detection")
     else
       let z_scores := anomaly_z_scores data in
       let anomalies := scan_anomalies data threshold 0 z_scores in
       let anomaly_indices := map an_index anomalies in
       anomaly_rate <- py_div (Qlen anomalies) (Qlen data) ;;
       Ret (Ok {| anomalies := anomalies;
                  anomaly_indices := anomaly_indices;
                  anomaly_rate := anomaly_rate;
                  an_threshold := threshold;
                  z_scores := fillna0 z_scores |}))
    (fun e => Ret (ErrorDict (str_exn e))).

(** ** predict and its three strategies *)

(** [[v] * periods] *)
Definition replicate (v : Q) (periods : nat) : list Q := repeat v periods.

(** [[max(0, pred) for pred in predictions]] *)
Definition clamp (predictions : list Q) : list Q := map Qmax0 predictions.

(** [ts.iloc[-1]] *)
Definition iloc_last (ts : list Q) : exc Q :=
  match ts with
  | [] => Raise (IndexError "single positional indexer is out-of-bounds")
  | _ => Ret (last ts 0)
  end.

Definition _predict_linear {N : Numerics} (ts : list Q) (periods : nat)
  : exc (list Q) :=
  try_except
    (if (length ts <? 2)%nat then Ret (replicate 0 periods)
     else
       let x := np_arange (length ts) in
       let y := ts in
       '(slope, intercept) <- np_polyfit x y ;;
       Ret (map (fun i =>
                   Qmax0 (slope * (Qlen ts + inject_Z (Z.of_nat i) - 1)
                          + intercept))
                (seq 1 periods)))
    (fun _ =>
       if (0 <? length ts)%nat then
         v <- iloc_last ts ;; Ret (replicate v periods)
       else Ret (replicate 0 periods)).

(** The state of a model search: [(best_model, best_aic)]. *)
Definition search_state : Type := option FitResult * float.

(** The body shared by the two search loops: keep the fit when its AIC is
    lower than the best so far, skip the candidate when fitting raises. *)
Definition keep_best (st : search_state) (attempt : exc FitResult)
  : search_state :=
  match attempt with
  | Raise _ => st
  | Ret fit => if float_lt (aic fit) (snd st) then (Some fit, aic fit) else st
  end.

Definition ets_models : list (component * component) :=
  [(add, add); (add, mul); (mul, add); (mul, mul)].

Definition _predict_ets {N : Numerics} (ts : list Q) (periods : nat)
  : exc (list Q) :=
  try_except
    (let '(best_model, _) :=
       fold_left
         (fun st '(trend, seasonal) =>
            let period := Nat.min 12 (length ts / 2) in
            keep_best st (ets_fit ts (Some trend) (Some seasonal)
                                  (Some period)))
         ets_models (None, pos_inf) in
     best_model <-
       match best_model with
       | None => ets_fit ts (Some add) None None
       | Some m => Ret m
       end ;;
     predictions <- fit_forecast best_model periods ;;
     Ret (clamp predictions))
    (fun _ => _predict_linear ts periods).

Definition arima_params : list (nat * nat * nat) :=
  [(1, 1, 1); (1, 1, 0); (0, 1, 1); (2, 1, 1); (1, 1, 2)]%nat.

Definition _predict_arima {N : Numerics} (ts : list Q) (periods : nat)
  : exc (list Q) :=
  try_except
    (let '(best_model, _) :=
       fold_left (fun st order => keep_best st (arima_fit ts order))
                 arima_params (None, pos_inf) in
     best_model <-
       match best_model with
       | None => arima_fit ts (1, 1, 1)%nat
       | Some m => Ret m
       end ;;
     predictions <- fit_forecast best_model periods ;;
     Ret (clamp predictions))
    (fun _ => _predict_linear ts periods).

Definition predict {N : Numerics} (data : list Q) (periods : nat)
           (method : string) : exc (list Q) :=
  try_except
    (if (length data <? 3)%nat then Ret (replicate 0 periods)
     else
       let ts := data in
       if String.eqb method "ets" then _predict_ets ts periods
       else if String.eqb method "arima" then _predict_arima ts periods
       else if String.eqb method "linear" then _predict_linear ts periods
       else _predict_ets ts periods)
    (fun _ => Ret (replicate 0 periods)).

(** ** forecast_with_intervals *)

Record Forecast : Type := {
  forecast : list Q;
  lower_bound : list Q;
  upper_bound : list Q;
  (** the key is absent on the short-input and on the failure path *)
  confidence_level : option Q
}.

(** [ts.diff().dropna()] *)
Fixpoint diff (ts : list Q) : list Q :=
  match ts with
  | a :: ((b :: _) as t) => (b - a) :: diff t
  | _ => []
  end.

Definition z_score_95 : Q := 196 # 100.

Definition forecast_with_intervals {N : Numerics} (data : list Q)
           (periods : nat) (alpha : Q) (method : string) : exc Forecast :=
  try_except
    (if (length data <? 3)%nat then
       Ret {| forecast := replicate 0 periods;
              lower_bound := replicate 0 periods;
              upper_bound := replicate 0 periods;
              confidence_level := None |}
     else
       let ts := data in
       forecast <- predict data periods method ;;
       let residuals := diff ts in
       let '(lower_bound, upper_bound) :=
         if (0 <? length residuals)%nat then
           let residual_std := np_std residuals in
           let se := map (fun k => residual_std * np_sqrt k)
                         (arange_from 1 periods) in
           let z_score := z_score_95 in
           (map (fun '(f, s) => Qmax0 (f - z_score * s)) (combine forecast se),
            map (fun '(f, s) => f + z_score * s) (combine forecast se))
         else
           (map (fun f => Qmax0 (f * (8 # 10))) forecast,
            map (fun f => f * (12 # 10)) forecast) in
       Ret {| forecast := forecast;
              lower_bound := lower_bound;
              upper_bound := upper_bound;
              confidence_level := Some ((1 - alpha) * 100) |})
    (fun _ =>
       forecast <- predict data periods method ;;
       Ret {| forecast := forecast;
              lower_bound := replicate 0 periods;
              upper_bound := replicate 0 periods;
              confidence_level := None |}).

(** ** detect_change_points *)

Record ChangePoint : Type := {
  cp_index : nat;
  cp_value : Q;
  cp_cumulative_sum : Q
}.

Record ChangePointResult : Type := {
  change_points : list ChangePoint;
  cumulative_sum : list Q;
  cp_threshold : Q
}.

(** [np.cumsum], with the running total [acc] *)
Fixpoint cumsum_from (acc : Q) (l : list Q) : list Q :=
  match l with
  | [] => []
  | v :: t => (acc + v) :: cumsum_from (acc + v) t
  end.
Definition np_cumsum (l : list Q) : list Q := cumsum_from 0 l.

(** The first loop: positions [1 .. n-1] whose cumulative sum exceeds the
    threshold. *)
Definition raw_change_points {N : Numerics} (data : list Q) (threshold : Q)
           (deviation cumulative_sum : list Q) : list ChangePoint :=
  flat_map
    (fun i =>
       if Qltb (threshold * np_std deviation) (Qabs (nth i cumulative_sum 0))
       then [{| cp_index := i;
                cp_value := nth i data 0;
                cp_cumulative_sum := nth i cumulative_sum 0 |}]
       else [])
    (seq 1 (length cumulative_sum - 1)).

(** [max(group, key=lambda x: abs(x['cumulative_sum']))]: the first
    element of greatest key; ValueError on an empty group. *)
Definition max_abs (group : list ChangePoint) : exc ChangePoint :=
  match group with
  | [] => Raise (ValueError "max() arg is an empty sequence")
  | c :: rest =>
    Ret (fold_left
           (fun best x =>
              if Qltb (Qabs (cp_cumulative_sum best))
                      (Qabs (cp_cumulative_sum x))
              then x else best)
           rest c)
  end.

(** [current_group[-1]] *)
Definition last_of (group : list ChangePoint) : exc ChangePoint :=
  match group with
  | [] => Raise (IndexError "list index out of range")
  | c :: rest => Ret (last rest c)
  end.

(** The grouping loop over [change_points[1:]]; the state is
    [(current_group, grouped_change_points)]. *)
Fixpoint group_loop (rest : list ChangePoint)
         (current_group grouped : list ChangePoint)
  : exc (list ChangePoint * list ChangePoint) :=
  match rest with
  | [] => Ret (current_group, grouped)
  | cp :: rest' =>
    prev <- last_of current_group ;;
    if (Z.of_nat (cp_index cp) - Z.of_nat (cp_index prev) <? 5)%Z then
      group_loop rest' (current_group ++ [cp]) grouped
    else
      max_cp <- max_abs current_group ;;
      group_loop rest' [cp] (grouped ++ [max_cp])
  end.

Definition group_change_points (change_points : list ChangePoint)
  : exc (list ChangePoint) :=
  match change_points with
  | [] => Ret []
  | cp0 :: rest =>
    '(current_group, grouped) <- group_loop rest [cp0] [] ;;
    match current_group with
    | [] => Ret grouped
    | _ => max_cp <- max_abs current_group ;; Ret (grouped ++ [max_cp])
    end
  end.

Definition detect_change_points {N : Numerics} (data : list Q) (threshold : Q)
  : exc (result ChangePointResult) :=
  try_except
    (if (length data <? 5)%nat then
       Ret (ErrorDict "Insufficient data for change point detection")
     else
       let ts := data in
       let mean := np_mean ts in
       let deviation := map (fun v => v - mean) ts in
       let cumulative_sum := np_cumsum deviation in
       let change_points :=
         raw_change_points data threshold deviation cumulative_sum in
       grouped_change_points <- group_change_points change_points ;;
       Ret (Ok {| change_points := grouped_change_points;
                  cumulative_sum := cumulative_sum;
                  cp_threshold := threshold |}))
    (fun e => Ret (ErrorDict (str_exn e))).


(** ** calculate_trend *)

Definition calculate_trend {N : Numerics} (values : list Q) : exc Q :=
  try_except
    (if (length values <? 2)%nat then Ret 0
     else
       let x := np_arange (length values) in
       let y := values in
       '(slope, _) <- np_polyfit x y ;;
       Ret slope)
    (fun _ => Ret 0).

(** ** calculate_moving_average *)

(** [ts.rolling(window=window).mean()]; a window of 0 has no observation
    at any position, and pandas gives NaN throughout. *)
Definition rolling_mean_any (window : nat) (ts : list Q) : list (option Q) :=
  match window with
  | O => map (fun _ => None) ts
  | _ => rolling_mean window ts
  end.

(** [s.fillna(other)] for two series on the same index *)
Fixpoint fillna_from (s : list (option Q)) (other : list Q) : list Q :=
  match s, other with
  | Some v :: s', _ :: other' => v :: fillna_from s' other'
  | None :: s', o :: other' => o :: fillna_from s' other'
  | _, _ => []
  end.

Definition calculate_moving_average (data : list Q) (window : nat)
  : exc (list Q) :=
  try_except
    (match data with
     | [] => Ret []
     | _ =>
       let ts := data in
       let moving_avg := rolling_mean_any window ts in
       let moving_avg := fillna_from moving_avg ts in
       Ret moving_avg
     end)
    (fun _ => Ret data).

(** ** calculate_growth_rate *)

(** The loop [for i in range(1, len(data))], on the pairs
    [(data[i-1], data[i])]. *)
Fixpoint growth_rates (data : list Q) : exc (list Q) :=
  match data with
  | prev :: ((cur :: _) as rest) =>
    growth_rate <-
      (if negb (Qeq_bool prev 0) then
         q <- py_div (cur - prev) prev ;; Ret (q * 100)
       else Ret 0) ;;
    growth_rates' <- growth_rates rest ;;
    Ret (growth_rate :: growth_rates')
  | _ => Ret []
  end.

Definition calculate_growth_rate (data : list Q) : exc (list Q) :=
  try_except
    (if (length data <? 2)%nat then Ret [] else growth_rates data)
    (fun _ => Ret []).

(** ** evaluate_forecast *)

(** Arithmetic of floats with a finite scalar. *)
Definition float_add (a b : float) : float :=
  match a, b with
  | Fin x, Fin y => Fin (x + y)
  | NaN, _ | _, NaN => NaN
  | Inf s, Fin _ | Fin _, Inf s => Inf s
  | Inf s1, Inf s2 => if Bool.eqb s1 s2 then Inf s1 else NaN
  end.

Definition float_mul_q (a : float) (q : Q) : float :=
  match a with
  | Fin x => Fin (x * q)
  | Inf s => if Qeq_bool q 0 then NaN else Inf (xorb s (Qltb q 0))
  | NaN => NaN
  end.

Definition float_div_q (a : float) (q : Q) : float :=
  match a with
  | Fin x => np_div x q
  | Inf s => Inf (xorb s (Qltb q 0))
  | NaN => NaN
  end.

(** [np.abs] *)
Definition float_abs (a : float) : float :=
  match a with
  | Fin x => Fin (Qabs x)
  | Inf _ => Inf false
  | NaN => NaN
  end.

(** [np.mean] of an array that may hold exceptional values *)
Definition float_mean (l : list float) : float :=
  match l with
  | [] => NaN
  | _ => float_div_q (fold_right float_add (Fin 0) l) (Qlen l)
  end.

(** elementwise [f(a, b)] of two arrays of the same length *)
Fixpoint zip_with {A} (f : Q -> Q -> A) (xs ys : list Q) : list A :=
  match xs, ys with
  | x :: xs', y :: ys' => f x y :: zip_with f xs' ys'
  | _, _ => []
  end.

(** [sklearn.metrics.mean_squared_error] and [mean_absolute_error] on two
    arrays of the same length *)
Definition mean_squared_error (y_true y_pred : list Q) : Q :=
  np_mean (zip_with (fun a p => sq (a - p)) y_true y_pred).
Definition mean_absolute_error (y_true y_pred : list Q) : Q :=
  np_mean (zip_with (fun a p => Qabs (a - p)) y_true y_pred).

Record ForecastMetrics : Type := {
  mse : Q;
  rmse : Q;
  mae : Q;
  mape : float;
  fm_r_squared : Q
}.

Definition evaluate_forecast {N : Numerics} (actual predicted : list Q)
  : exc (result ForecastMetrics) :=
  try_except
    (if (length actual =? 0)%nat || (length predicted =? 0)%nat
        || negb (length actual =? length predicted)%nat then
       Ret (ErrorDict "Invalid input for forecast evaluation")
     else
       let actual_array := actual in
       let predicted_array := predicted in
       let mse := mean_squared_error actual_array predicted_array in
       let rmse := np_sqrt mse in
       let mae := mean_absolute_error actual_array predicted_array in
       let mape :=
         float_mul_q
           (float_mean
              (map float_abs
                   (zip_with (fun a p => np_div (a - p) a)
                             actual_array predicted_array)))
           100 in
       let ss_res :=
         np_sum (zip_with (fun a p => sq (a - p))
                          actual_array predicted_array) in
       let ss_tot :=
         np_sum (map (fun a => sq (a - np_mean actual_array))
                     actual_array) in
       let r_squared := if Qltb 0 ss_tot then 1 - ss_res / ss_tot else 0 in
       Ret (Ok {| mse := mse;
                  rmse := rmse;
                  mae := mae;
                  mape := mape;
                  fm_r_squared := r_squared |}))
    (fun e => Ret (ErrorDict (str_exn e))).

(** ** The dates of [predict_deforestation] (api/routes.py)

    The handler builds, for [i] from 1 to [periods], the first day of the
    month [i] months after the last historical date, by
    [datetime.replace(month=..., year=...)].  A date is kept as
    [(year, month)]; [replace] raises ValueError for a year beyond
    [datetime.MAXYEAR]. *)

Definition MAXYEAR : Z := 9999.

Definition future_date (year month : Z) (i : Z) : exc (Z * Z) :=
  let month' := ((month + i - 1) mod 12 + 1)%Z in
  let year' := (year + (month + i - 1) / 12)%Z in
  if ((1 <=? year') && (year' <=? MAXYEAR))%Z then Ret (year', month')
  else Raise (ValueError "year is out of range").

Fixpoint future_dates_from (year month : Z) (i : Z) (count : nat)
  : exc (list (Z * Z)) :=
  match count with
  | O => Ret []
  | S count' =>
    d <- future_date year month i ;;
    ds <- future_dates_from year month (i + 1) count' ;;
    Ret (d :: ds)
  end.

(** [for i in range(1, periods + 1)] *)
Definition future_dates (year month : Z) (periods : Z) : exc (list (Z * Z)) :=
  future_dates_from year month 1 (Z.to_nat periods).
(** * Reference instances of the imports *)

(** A rational lower approximation of the square root, to six decimals. *)
Definition approx_sqrt (q : Q) : Q :=
  Z.sqrt (Qnum q * Zpos (Qden q) * 10 ^ 12) # (Qden q * 10 ^ 6).

(** Classical moving-average decomposition, the algorithm of statsmodels'
    [seasonal_decompose] in exact arithmetic: a centred moving average for
    the trend, per-position means of the detrended series for the seasonal
    component, the remainder as residual.  Every value is kept in lowest
    terms ([Qred]). *)
Definition ma_filter (p : nat) : list Q :=
  let w := 1 / inject_Z (Z.of_nat p) in
  if Nat.even p then ((1 # 2) * w) :: repeat w (p - 1) ++ [(1 # 2) * w]
  else repeat w p.

Definition classical_trend (p : nat) (x : list Q) : list (option Q) :=
  let filt := ma_filter p in
  let half := (length filt / 2)%nat in
  map (fun i =>
         if (half <=? i)%nat && (i + half <? length x)%nat
         then Some (Qred (np_sum (zip_mul filt (skipn (i - half) x))))
         else None)
      (seq 0 (length x)).

(** [np.nanmean(detrended[i::p])] *)
Definition period_average (p i : nat) (detrended : list (option Q)) : Q :=
  Qred (np_mean (dropna (map (fun j => nth j detrended None)
                             (filter (fun j => (j mod p =? i)%nat)
                                     (seq 0 (length detrended)))))).

Definition classical_decompose (x : list Q) (model : decomposition_model)
           (p : nat) : exc DecomposeResult :=
  if (p <? 2)%nat || (length x <? 2 * p)%nat then
    Raise (ValueError "x must have 2 complete cycles")
  else
    match model with
    | additive =>
      let trend := classical_trend p x in
      let detrended :=
        map (fun '(v, t) => option_map (fun tv => Qred (v - tv)) t)
            (combine x trend) in
      let averages := map (fun i => period_average p i detrended) (seq 0 p) in
      let centred := map (fun a => Qred (a - np_mean averages)) averages in
      let seasonal :=
        map (fun j => nth (j mod p) centred 0) (seq 0 (length x)) in
      Ret {| dr_trend := trend;
             dr_seasonal := seasonal;
             dr_resid :=
               map (fun '(d, s) => option_map (fun dv => Qred (dv - s)) d)
                   (combine detrended seasonal) |}
    | multiplicative =>
      if forallb (Qltb 0) x then
        let trend := classical_trend p x in
        let detrended :=
          map (fun '(v, t) => option_map (fun tv => Qred (v / tv)) t)
              (combine x trend) in
        let averages :=
          map (fun i => period_average p i detrended) (seq 0 p) in
        let centred := map (fun a => Qred (a / np_mean averages)) averages in
        let seasonal :=
          map (fun j => nth (j mod p) centred 0) (seq 0 (length x)) in
        Ret {| dr_trend := trend;
               dr_seasonal := seasonal;
               dr_resid :=
                 map (fun '(d, s) => option_map (fun dv => Qred (dv / s)) d)
                     (combine detrended seasonal) |}
      else
        Raise (ValueError
                 "Multiplicative seasonality is not appropriate for zero and negative values")
    end.

(** A small forecasting model standing for a fitted statsmodels result:
    the last observation carried forward, with the number of requested
    components as its criterion.  Multiplicative components are refused on
    data that is not strictly positive, seasonal ones on fewer than two
    cycles, as statsmodels does. *)
Definition carry_forward (ts : list Q) (criterion : Q) : FitResult :=
  {| aic := Fin criterion;
     fit_forecast := fun steps => Ret (repeat (last ts 0) steps) |}.

Definition is_mul (c : option component) : bool :=
  match c with Some mul => true | _ => false end.

Definition reference_ets (ts : list Q) (trend seasonal : option component)
           (seasonal_periods : option nat) : exc FitResult :=
  if (is_mul trend || is_mul seasonal) && negb (forallb (Qltb 0) ts) then
    Raise (ValueError "endog must be strictly positive")
  else
    match seasonal, seasonal_periods with
    | Some _, Some p =>
      if (p <? 2)%nat || (length ts <? 2 * p)%nat then
        Raise (ValueError "Cannot compute initial seasonals")
      else Ret (carry_forward ts (if is_mul seasonal then 5 else 4))
    | Some _, None => Raise (ValueError "seasonal_periods has not been provided")
    | None, _ => Ret (carry_forward ts 2)
    end.

Definition reference_arima (ts : list Q) (order : nat * nat * nat)
  : exc FitResult :=
  let '(p, d, q) := order in
  if (length ts <=? p + d + q)%nat then
    Raise (LinAlgError "Schur decomposition solver error")
  else Ret (carry_forward ts (inject_Z (Z.of_nat (p + q + 1)))).

#[export] Instance reference_numerics : Numerics := {
  np_sqrt := approx_sqrt;
  np_polyfit := least_squares;
  seasonal_decompose := classical_decompose;
  ets_fit := reference_ets;
  arima_fit := reference_arima
}.

(** Thirty-six observations: a pattern of period four (0, 10, 0, -10)
    around a level that alternates between 20 and 26 every four
    observations. *)
Definition quarterly_series : list Q :=
  concat (repeat [20; 30; 20; 10; 26; 36; 26; 16] 4) ++ [20; 30; 20; 10].

(** * Vocabulary of the statements *)

(** The array [l - c]. *)
Definition shift (c : Q) (l : list Q) : list Q := map (fun v => v - c) l.

(** Strictly increasing: every element is below all later ones. *)
Definition strictly_increasing (l : list Q) : Prop := StronglySorted Qlt l.

(** The contract of statsmodels' [forecast(steps)]: a forecast that
    returns has [steps] values. *)
Definition forecast_has_steps (fit : FitResult) : Prop :=
  forall steps l, fit_forecast fit steps = Ret l -> length l = steps.

Definition forecast_contract (N : Numerics) : Prop :=
  (forall ts trend seasonal sp fit,
      ets_fit ts trend seasonal sp = Ret fit -> forecast_has_steps fit) /\
  (forall ts order fit,
      arima_fit ts order = Ret fit -> forecast_has_steps fit).

(** What every strategy delivers: a list, of [periods] values. *)
Definition delivers (periods : nat) (c : exc (list Q)) : Prop :=
  exists l, c = Ret l /\ length l = periods.

(** What they deliver on non-negative data: a list of non-negative values. *)
Definition delivers_nonneg (c : exc (list Q)) : Prop :=
  exists l, c = Ret l /\ Forall (Qle 0) l.

(** A strategy made of a model search, a fallback fit, a forecast and the
    clamp, with linear extrapolation on any failure. *)
Definition forecast_best {N : Numerics} (ts : list Q) (periods : nat)
           (st : search_state) (fallback : exc FitResult) : exc (list Q) :=
  try_except
    (let '(best_model, _) := st in
     best_model <-
       match best_model with
       | None => fallback
       | Some m => Ret m
       end ;;
     predictions <- fit_forecast best_model periods ;;
     Ret (clamp predictions))
    (fun _ => _predict_linear ts periods).

(** Position [i] of the series is flagged by [detect_anomalies]: its
    z-score is defined and exceeds the threshold in absolute value. *)
Definition flagged {N : Numerics} (data : list Q) (threshold : Q)
           (i : nat) : bool :=
  let z := nth i (anomaly_z_scores data) NaN in
  negb (math_isnan z) && float_abs_gt z threshold.

(** Two candidates are near when the second lies fewer than five
    positions after the first. *)
Definition near (a b : ChangePoint) : Prop :=
  (Z.of_nat (cp_index b) - Z.of_nat (cp_index a) < 5)%Z.

(** The indices of two candidates differ by fewer than five positions. *)
Definition within_5 (a b : ChangePoint) : Prop :=
  (Z.abs (Z.of_nat (cp_index a) - Z.of_nat (cp_index b)) < 5)%Z.

Definition index_lt (a b : ChangePoint) : Prop :=
  (cp_index a < cp_index b)%nat.

(** A cluster: a non-empty run of candidates, each near its predecessor. *)
Definition cluster (g : list ChangePoint) : Prop :=
  g <> [] /\ Sorted near g.

(** Two consecutive clusters: the first candidate of the second is not
    near the last candidate of the first. *)
Definition apart (g1 g2 : list ChangePoint) : Prop :=
  exists a b, last_of g1 = Ret a /\ hd_error g2 = Some b /\ ~ near a b.

Inductive separated : list (list ChangePoint) -> Prop :=
| separated_nil : separated []
| separated_one g : separated [g]
| separated_cons g1 g2 G :
    apart g1 g2 -> separated (g2 :: G) -> separated (g1 :: g2 :: G).

(** The representative of a cluster: one of its candidates, of greatest
    absolute cumulative sum. *)
Definition representative (g : list ChangePoint) (c : ChangePoint) : Prop :=
  In c g /\
  forall x, In x g ->
            Qabs (cp_cumulative_sum x) <= Qabs (cp_cumulative_sum c).

(** The raw candidates of [detect_change_points] on a series. *)
Definition candidates {N : Numerics} (data : list Q) (threshold : Q)
  : list ChangePoint :=
  let deviation := map (fun v => v - np_mean data) data in
  raw_change_points data threshold deviation (np_cumsum deviation).

(** All values of a series lie in the interval from [lo] to [hi]. *)
Definition within (lo hi : Q) (l : list Q) : Prop :=
  Forall (fun v => lo <= v <= hi) l.

(** The shape of the terms of the MAPE sum: absolute values. *)
Inductive abs_value : float -> Prop :=
| abs_fin q : 0 <= q -> abs_value (Fin q)
| abs_inf : abs_value (Inf false)
| abs_nan : abs_value NaN.

(** Infinite or undefined. *)
Inductive not_finite : float -> Prop :=
| not_finite_inf : not_finite (Inf false)
| not_finite_nan : not_finite NaN.


(** A lower bound, a point forecast and an upper bound, in this order. *)
Definition bracketed (b : Q * (Q * Q)) : Prop :=
  fst b <= fst (snd b) <= snd (snd b).

(** The ratio of residual to seasonal variance of the candidate period
    [p], where the period search of [detect_seasonality] can compute it:
    two cycles of data, a decomposition that succeeds, and residuals of
    positive variance. *)
Definition period_score {N : Numerics} (ts : list Q) (p : nat)
  : option float :=
  if (2 * p <=? length ts)%nat then
    match seasonal_decompose ts additive p with
    | Raise _ => None
    | Ret d =>
      let residual := dropna (dr_resid d) in
      if (0 <? length residual)%nat && Qltb 0 (np_var residual)
      then Some (np_div (np_var residual) (np_var (dr_seasonal d)))
      else None
    end
  else None.

(** The ratio, or infinity where it cannot be computed. *)
Definition score_or_inf {N : Numerics} (ts : list Q) (p : nat) : float :=
  match period_score ts p with
  | Some s => s
  | None => pos_inf
  end.

(** The second change point lies at least five positions after the
    first. *)
Definition five_apart (a b : ChangePoint) : Prop :=
  (cp_index a + 5 <= cp_index b)%nat.

(** The series [a + b * x] at the positions [x = 0 .. n - 1]. *)
Definition line (a b : Q) (n : nat) : list Q :=
  map (fun x => a + b * x) (np_arange n).
(** * Properties *)

(** ** Comparisons *)

Lemma Qltb_lt (x y : Q) : Qltb x y = true <-> x < y.
Proof.
  unfold Qltb. rewrite negb_true_iff, <- not_true_iff_false, Qle_bool_iff.
  split; [apply Qnot_le_lt | apply Qlt_not_le].
Qed.

Lemma Qltb_ge (x y : Q) : Qltb x y = false <-> y <= x.
Proof.
  unfold Qltb. rewrite negb_false_iff. apply Qle_bool_iff.
Qed.

Lemma Qmax0_nonneg (x : Q) : 0 <= Qmax0 x.
Proof.
  unfold Qmax0. destruct (Qltb 0 x) eqn:E.
  - apply Qltb_lt in E. lra.
  - lra.
Qed.

Lemma Qlen_cons {A} (a : A) (l : list A) : Qlen (a :: l) == Qlen l + 1.
Proof.
  unfold Qlen. cbn [length]. rewrite Nat2Z.inj_succ, <- Z.add_1_r.
  rewrite inject_Z_plus. reflexivity.
Qed.

Lemma Qlen_nonneg {A} (l : list A) : 0 <= Qlen l.
Proof.
  unfold Qlen. change 0 with (inject_Z 0). rewrite <- Zle_Qle. lia.
Qed.

Lemma Qlen_pos {A} (l : list A) : (0 < length l)%nat -> 0 < Qlen l.
Proof.
  intros H. unfold Qlen. change 0 with (inject_Z 0). rewrite <- Zlt_Qlt. lia.
Qed.

(** ** The least-squares slope of an increasing series *)

Lemma np_sum_cons (a : Q) (l : list Q) : np_sum (a :: l) = a + np_sum l.
Proof. reflexivity. Qed.

Lemma sum_zip_shift (x y : Q) (xs ys : list Q) :
  length xs = length ys ->
  np_sum (zip_mul (shift x xs) (shift y ys)) ==
  np_sum (zip_mul xs ys) - y * np_sum xs - x * np_sum ys + Qlen xs * x * y.
Proof.
  revert ys. induction xs as [|a xs IH]; intros [|b ys] Hlen;
    try discriminate.
  - cbn. unfold Qlen. cbn. ring.
  - injection Hlen as Hlen. specialize (IH ys Hlen).
    cbn [shift map zip_mul]. fold (shift x xs) (shift y ys).
    rewrite !np_sum_cons, Qlen_cons, IH. ring.
Qed.

Lemma cov_num_cons (x y : Q) (xs ys : list Q) :
  length xs = length ys ->
  cov_num (x :: xs) (y :: ys) ==
  cov_num xs ys + np_sum (zip_mul (shift x xs) (shift y ys)).
Proof.
  intros Hlen. rewrite (sum_zip_shift x y xs ys Hlen).
  unfold cov_num. rewrite Qlen_cons.
  cbn [zip_mul]. rewrite !np_sum_cons. ring.
Qed.

Lemma sum_zip_shift_nonneg (x y : Q) (xs ys : list Q) :
  Forall (Qlt x) xs -> Forall (Qlt y) ys ->
  0 <= np_sum (zip_mul (shift x xs) (shift y ys)).
Proof.
  intros Hx. revert ys. induction Hx as [|a xs Ha Hx IH]; intros ys Hy.
  - cbn. lra.
  - destruct Hy as [|b ys Hb Hy]; [cbn; lra|].
    specialize (IH ys Hy).
    cbn [shift map zip_mul]. fold (shift x xs) (shift y ys).
    rewrite np_sum_cons.
    assert (0 < (a - x) * (b - y)) by (apply Qmult_lt_0_compat; lra).
    lra.
Qed.

Lemma sum_zip_shift_pos (x y a b : Q) (xs ys : list Q) :
  Forall (Qlt x) (a :: xs) -> Forall (Qlt y) (b :: ys) ->
  0 < np_sum (zip_mul (shift x (a :: xs)) (shift y (b :: ys))).
Proof.
  intros Hx Hy. inversion Hx; subst. inversion Hy; subst.
  pose proof (sum_zip_shift_nonneg x y xs ys H2 H4) as Hn.
  cbn [shift map zip_mul]. fold (shift x xs) (shift y ys).
  rewrite np_sum_cons.
  assert (0 < (a - x) * (b - y)) by (apply Qmult_lt_0_compat; lra).
  lra.
Qed.

Lemma cov_num_nonneg (xs ys : list Q) :
  strictly_increasing xs -> strictly_increasing ys ->
  length xs = length ys -> 0 <= cov_num xs ys.
Proof.
  intros Hx. revert ys. induction Hx as [|x xs Hxs IH Hx]; intros ys Hy Hlen.
  - unfold cov_num. cbn. lra.
  - destruct Hy as [|y ys Hys Hy]; [discriminate|].
    injection Hlen as Hlen.
    rewrite (cov_num_cons x y xs ys Hlen).
    pose proof (IH ys Hys Hlen).
    pose proof (sum_zip_shift_nonneg x y xs ys Hx Hy). lra.
Qed.

Lemma cov_num_pos (xs ys : list Q) :
  strictly_increasing xs -> strictly_increasing ys ->
  length xs = length ys -> (2 <= length xs)%nat -> 0 < cov_num xs ys.
Proof.
  intros Hx Hy Hlen H2.
  destruct Hx as [|x xs Hxs Hx]; [cbn in H2; lia|].
  destruct Hy as [|y ys Hys Hy]; [discriminate|].
  injection Hlen as Hlen.
  rewrite (cov_num_cons x y xs ys Hlen).
  pose proof (cov_num_nonneg xs ys Hxs Hys Hlen).
  destruct xs as [|a xs]; [cbn in H2; lia|].
  destruct ys as [|b ys]; [discriminate|].
  pose proof (sum_zip_shift_pos x y a b xs ys Hx Hy). lra.
Qed.

Lemma arange_from_increasing (a n : nat) :
  strictly_increasing (arange_from a n).
Proof.
  unfold strictly_increasing, arange_from. revert a.
  induction n as [|n IH]; intros a; cbn; constructor.
  - apply IH.
  - apply Forall_forall. intros v Hv. apply in_map_iff in Hv.
    destruct Hv as [i [<- Hi]]. apply in_seq in Hi.
    rewrite <- Zlt_Qlt. lia.
Qed.

Lemma arange_from_length (a n : nat) : length (arange_from a n) = n.
Proof. unfold arange_from. now rewrite length_map, length_seq. Qed.

Lemma least_squares_slope_pos (ys : list Q) :
  strictly_increasing ys -> (2 <= length ys)%nat ->
  exists slope intercept,
    least_squares (np_arange (length ys)) ys = Ret (slope, intercept) /\
    0 < slope.
Proof.
  intros Hy H2. set (xs := np_arange (length ys)).
  assert (Hlen : length xs = length ys) by apply arange_from_length.
  assert (Hx : strictly_increasing xs) by apply arange_from_increasing.
  assert (Hd : 0 < cov_num xs xs) by (apply cov_num_pos; auto; lia).
  assert (Hn : 0 < cov_num xs ys) by (apply cov_num_pos; auto; lia).
  unfold least_squares.
  destruct xs as [|x0 xs'] eqn:Exs; [cbn in Hlen; lia|].
  rewrite <- Exs in *. rewrite Hlen, Nat.eqb_refl. cbn [negb].
  destruct (Qeq_bool (cov_num xs xs) 0) eqn:E.
  - apply Qeq_bool_iff in E. lra.
  - eexists _, _. split; [reflexivity|].
    apply Qlt_shift_div_l; lra.
Qed.

(** ** analyze_trend *)

Section Trend.
Context {N : Numerics}.

Lemma analyze_trend_never_raises (data : list Q) :
  exists d, analyze_trend data = Ret d.
Proof.
  unfold analyze_trend, try_except.
  destruct (analyze_trend_body data); eauto.
Qed.

(** Where the fit returns and the first value is not zero, the reported
    percentage change is the endpoint formula. *)
Lemma analyze_trend_percentage_change (data : list Q) (r : TrendResult) :
  analyze_trend data = Ret (Ok r) ->
  (~ first data == 0) /\
  (percentage_change r
   = (last_value data - first data) / first data * 100).
Proof.
  unfold analyze_trend, analyze_trend_body, try_except.
  destruct (length data <? 2)%nat eqn:Hlen; [discriminate|].
  apply Nat.ltb_ge in Hlen.
  destruct (np_polyfit _ _) as [[s i]|e]; cbn [bind]; [|discriminate].
  destruct (2 <=? length data)%nat eqn:H2; [|apply Nat.leb_gt in H2; lia].
  unfold py_div. destruct (Qeq_bool (first data) 0) eqn:E; cbn [bind].
  - discriminate.
  - intros H. injection H as <-. cbn. split; [|reflexivity].
    now apply Qeq_bool_neq.
Qed.

End Trend.

(** C2, at the failing inputs: a series of at least two values whose first
    value is zero gets no percentage change (and no slope): the division
    raises inside [analyze_trend], and the method returns an error dict. *)
Theorem analyze_trend_zero_first_is_error
        (N : Numerics) (data : list Q) :
  (2 <= length data)%nat -> first data == 0 ->
  exists msg, analyze_trend data = Ret (ErrorDict msg).
Proof.
  intros H2 H0. unfold analyze_trend, analyze_trend_body, try_except.
  destruct (length data <? 2)%nat eqn:Hlen;
    [apply Nat.ltb_lt in Hlen; lia|].
  destruct (np_polyfit _ _) as [[s i]|e]; cbn [bind]; [|eauto].
  destruct (2 <=? length data)%nat eqn:H2'; [|apply Nat.leb_gt in H2'; lia].
  unfold py_div. apply Qeq_bool_iff in H0. rewrite H0. cbn [bind]. eauto.
Qed.

Lemma analyze_trend_zero_first_is_error_witness :
  exists msg,
    analyze_trend (N := reference_numerics) [0; 1; 2] = Ret (ErrorDict msg).
Proof.
  apply (analyze_trend_zero_first_is_error reference_numerics [0; 1; 2]).
  - cbn. lia.
  - reflexivity.
Defined.

(** C3, as the code has it: an input of fewer than two values gets the
    error dict of the length guard, not a result with zero fields; nothing
    is raised. *)
Theorem analyze_trend_short_input (N : Numerics) (data : list Q) :
  (length data < 2)%nat ->
  analyze_trend data
  = Ret (ErrorDict "Insufficient data for trend analysis").
Proof.
  intros H. unfold analyze_trend, analyze_trend_body.
  apply Nat.ltb_lt in H. rewrite H. reflexivity.
Qed.

Lemma analyze_trend_short_input_witness :
  analyze_trend (N := reference_numerics) [5]
  = Ret (ErrorDict "Insufficient data for trend analysis").
Proof.
  apply (analyze_trend_short_input reference_numerics [5]). cbn. lia.
Defined.

(** C3 as stated fails: on the empty series no result with zero slope,
    intercept and percentage change is returned. *)
Lemma analyze_trend_short_input_not_neutral :
  ~ (forall data : list Q,
        (length data < 2)%nat ->
        exists r, analyze_trend (N := reference_numerics) data = Ret (Ok r)
                  /\ slope r == 0 /\ intercept r == 0
                  /\ percentage_change r == 0).
Proof.
  intros H. destruct (H [] ltac:(cbn; lia)) as [r [E _]]. discriminate E.
Qed.





(** The ten-point scenario of the specification: the least-squares slope
    is 25/33, the direction 'increasing', the change 25 percent. *)
Example analyze_trend_scenario :
  exists r,
    analyze_trend (N := reference_numerics)
                  [100; 105; 95; 110; 90; 115; 85; 120; 80; 125]
    = Ret (Ok r)
    /\ slope r == 25 # 33 /\ direction r = increasing
    /\ percentage_change r == 25.
Proof.
  eexists. split; [reflexivity|]. repeat split.
Qed.

(** ** predict *)

Section Forecaster.
Context {N : Numerics}.

Lemma replicate_length (v : Q) (periods : nat) :
  length (replicate v periods) = periods.
Proof. apply repeat_length. Qed.

Lemma replicate_nonneg (v : Q) (periods : nat) :
  0 <= v -> Forall (Qle 0) (replicate v periods).
Proof.
  intros Hv. apply Forall_forall. intros x Hx.
  apply repeat_spec in Hx. now subst.
Qed.

Lemma clamp_length (l : list Q) : length (clamp l) = length l.
Proof. apply length_map. Qed.

Lemma clamp_nonneg (l : list Q) : Forall (Qle 0) (clamp l).
Proof.
  apply Forall_forall. intros x Hx. apply in_map_iff in Hx.
  destruct Hx as [y [<- _]]. apply Qmax0_nonneg.
Qed.

Lemma last_nonneg (l : list Q) : Forall (Qle 0) l -> 0 <= last l 0.
Proof.
  induction 1 as [|a l Ha Hl IH]; [cbn; lra|].
  destruct l; [exact Ha | exact IH].
Qed.

Lemma _predict_linear_returns (ts : list Q) (periods : nat) :
  exists l, _predict_linear ts periods = Ret l.
Proof.
  unfold _predict_linear, try_except.
  destruct (length ts <? 2)%nat; [eauto|].
  destruct (np_polyfit _ _) as [[s i]|e]; cbn [bind]; [eauto|].
  destruct ts as [|a ts]; cbn; eauto.
Qed.

Lemma _predict_linear_length (ts : list Q) (periods : nat) :
  delivers periods (_predict_linear ts periods).
Proof.
  unfold delivers, _predict_linear, try_except.
  destruct (length ts <? 2)%nat.
  { eexists. split; [reflexivity | apply replicate_length]. }
  destruct (np_polyfit _ _) as [[s i]|e]; cbn [bind].
  { eexists. split; [reflexivity|]. now rewrite length_map, length_seq. }
  destruct ts as [|a ts]; cbn [length Nat.ltb Nat.leb iloc_last bind];
    eexists; (split; [reflexivity | apply replicate_length]).
Qed.

Lemma _predict_linear_nonneg (ts : list Q) (periods : nat) :
  Forall (Qle 0) ts -> delivers_nonneg (_predict_linear ts periods).
Proof.
  intros Hts. unfold delivers_nonneg, _predict_linear, try_except.
  destruct (length ts <? 2)%nat.
  { eexists. split; [reflexivity | apply replicate_nonneg; lra]. }
  destruct (np_polyfit _ _) as [[s i]|e]; cbn [bind].
  { eexists. split; [reflexivity|]. apply Forall_forall. intros x Hx.
    apply in_map_iff in Hx. destruct Hx as [k [<- _]]. apply Qmax0_nonneg. }
  destruct ts as [|a ts]; cbn [length Nat.ltb Nat.leb iloc_last bind];
    eexists; (split; [reflexivity | apply replicate_nonneg]);
    [lra | now apply last_nonneg].
Qed.

(** The search loops keep only fits that the fitting routine returned. *)
Lemma keep_best_invariant (P : FitResult -> Prop)
      (st : search_state) (attempt : exc FitResult) :
  (forall fit, fst st = Some fit -> P fit) ->
  (forall fit, attempt = Ret fit -> P fit) ->
  forall fit, fst (keep_best st attempt) = Some fit -> P fit.
Proof.
  intros Hst Hat fit. unfold keep_best.
  destruct attempt as [f|e]; [|apply Hst].
  destruct (float_lt (aic f) (snd st)); [|apply Hst].
  cbn. intros [= <-]. now apply Hat.
Qed.

Lemma search_invariant {A} (P : FitResult -> Prop)
      (attempt : A -> exc FitResult) (candidates : list A) :
  (forall a fit, attempt a = Ret fit -> P fit) ->
  forall st, (forall fit, fst st = Some fit -> P fit) ->
  forall fit,
    fst (fold_left (fun st a => keep_best st (attempt a)) candidates st)
    = Some fit -> P fit.
Proof.
  intros Hat. induction candidates as [|a l IH]; intros st Hst; cbn.
  - exact Hst.
  - apply IH. apply keep_best_invariant; [exact Hst | apply Hat].
Qed.

Lemma forecast_best_length (ts : list Q) (periods : nat)
      (st : search_state) (fallback : exc FitResult) :
  (forall fit, fst st = Some fit -> forecast_has_steps fit) ->
  (forall fit, fallback = Ret fit -> forecast_has_steps fit) ->
  delivers periods (forecast_best ts periods st fallback).
Proof.
  intros Hst Hfb. unfold forecast_best, try_except.
  destruct st as [[m|] best_aic]; cbn [bind].
  - destruct (fit_forecast m periods) as [l|e] eqn:E; cbn [bind].
    + exists (clamp l). split; [reflexivity|].
      rewrite clamp_length. now apply (Hst m eq_refl periods).
    + apply _predict_linear_length.
  - destruct fallback as [m|e]; cbn [bind];
      [|apply _predict_linear_length].
    destruct (fit_forecast m periods) as [l|e] eqn:E; cbn [bind].
    + exists (clamp l). split; [reflexivity|].
      rewrite clamp_length. now apply (Hfb m eq_refl periods).
    + apply _predict_linear_length.
Qed.

Lemma forecast_best_nonneg (ts : list Q) (periods : nat)
      (st : search_state) (fallback : exc FitResult) :
  Forall (Qle 0) ts ->
  delivers_nonneg (forecast_best ts periods st fallback).
Proof.
  intros Hts. unfold forecast_best, try_except.
  destruct st as [[m|] best_aic]; cbn [bind].
  - destruct (fit_forecast m periods) as [l|e]; cbn [bind].
    + exists (clamp l). split; [reflexivity | apply clamp_nonneg].
    + now apply _predict_linear_nonneg.
  - destruct fallback as [m|e]; cbn [bind];
      [|now apply _predict_linear_nonneg].
    destruct (fit_forecast m periods) as [l|e]; cbn [bind].
    + exists (clamp l). split; [reflexivity | apply clamp_nonneg].
    + now apply _predict_linear_nonneg.
Qed.

Lemma _predict_ets_unfold (ts : list Q) (periods : nat) :
  _predict_ets ts periods
  = forecast_best ts periods
      (fold_left
         (fun st (m : component * component) =>
            keep_best st (ets_fit ts (Some (fst m)) (Some (snd m))
                                  (Some (Nat.min 12 (length ts / 2)))))
         ets_models (None, pos_inf))
      (ets_fit ts (Some add) None None).
Proof. reflexivity. Qed.

Lemma _predict_arima_unfold (ts : list Q) (periods : nat) :
  _predict_arima ts periods
  = forecast_best ts periods
      (fold_left (fun st order => keep_best st (arima_fit ts order))
                 arima_params (None, pos_inf))
      (arima_fit ts (1, 1, 1)%nat).
Proof. reflexivity. Qed.

Lemma _predict_ets_length (ts : list Q) (periods : nat) :
  forecast_contract N -> delivers periods (_predict_ets ts periods).
Proof.
  intros [He _]. rewrite _predict_ets_unfold.
  apply forecast_best_length.
  - apply (search_invariant forecast_has_steps
             (fun m : component * component =>
                ets_fit ts (Some (fst m)) (Some (snd m))
                        (Some (Nat.min 12 (length ts / 2))))).
    + intros a fit. apply He.
    + cbn. discriminate.
  - apply He.
Qed.

Lemma _predict_arima_length (ts : list Q) (periods : nat) :
  forecast_contract N -> delivers periods (_predict_arima ts periods).
Proof.
  intros [_ Ha]. rewrite _predict_arima_unfold.
  apply forecast_best_length.
  - apply (search_invariant forecast_has_steps (arima_fit ts)).
    + intros a fit. apply Ha.
    + cbn. discriminate.
  - apply Ha.
Qed.

Lemma predict_returns (data : list Q) (periods : nat) (method : string) :
  exists l, predict data periods method = Ret l.
Proof.
  unfold predict, try_except.
  match goal with |- context [match ?b with Ret _ => _ | Raise _ => _ end] =>
    destruct b end; eauto.
Qed.

Lemma predict_length (data : list Q) (periods : nat) (method : string) :
  forecast_contract N -> delivers periods (predict data periods method).
Proof.
  intros HC.
  assert (Hlift : forall c, delivers periods c ->
            delivers periods
              (try_except c (fun _ => Ret (replicate 0 periods)))).
  { intros c [l [-> Hl]]. now exists l. }
  unfold predict. apply Hlift.
  destruct (length data <? 3)%nat.
  { eexists. split; [reflexivity | apply replicate_length]. }
  destruct (String.eqb method "ets"); [now apply _predict_ets_length|].
  destruct (String.eqb method "arima"); [now apply _predict_arima_length|].
  destruct (String.eqb method "linear"); [apply _predict_linear_length|].
  now apply _predict_ets_length.
Qed.

Lemma predict_nonneg (data : list Q) (periods : nat) (method : string) :
  Forall (Qle 0) data -> delivers_nonneg (predict data periods method).
Proof.
  intros Hd.
  assert (Hlift : forall c, delivers_nonneg c ->
            delivers_nonneg
              (try_except c (fun _ => Ret (replicate 0 periods)))).
  { intros c [l [-> Hl]]. now exists l. }
  unfold predict. apply Hlift.
  destruct (length data <? 3)%nat.
  { eexists. split; [reflexivity | apply replicate_nonneg; lra]. }
  rewrite _predict_ets_unfold, _predict_arima_unfold.
  destruct (String.eqb method "ets"); [now apply forecast_best_nonneg|].
  destruct (String.eqb method "arima"); [now apply forecast_best_nonneg|].
  destruct (String.eqb method "linear"); [now apply _predict_linear_nonneg|].
  now apply forecast_best_nonneg.
Qed.

End Forecaster.

Lemma reference_contract : forecast_contract reference_numerics.
Proof.
  assert (Hcf : forall ts c, forecast_has_steps (carry_forward ts c)).
  { intros ts c steps l. cbn. intros [= <-]. apply repeat_length. }
  split.
  - intros ts trend seasonal sp fit. cbn. unfold reference_ets.
    destruct (_ && _); [discriminate|].
    destruct seasonal as [s|]; [destruct sp as [p|]; [|discriminate]|].
    + destruct (_ || _); [discriminate|]. intros [= <-]. apply Hcf.
    + intros [= <-]. apply Hcf.
  - intros ts [[p d] q] fit. cbn.
    destruct (_ <=? _)%nat; [discriminate|]. intros [= <-]. apply Hcf.
Qed.

(** C4: whatever the series, the number of periods and the method, with
    fitted models whose [forecast(steps)] has [steps] values, [predict]
    returns a list of exactly [periods] values. *)
Theorem predict_length_is_periods
        (N : Numerics) (data : list Q) (periods : nat) (method : string) :
  forecast_contract N ->
  exists l, predict data periods method = Ret l /\ length l = periods.
Proof. intros HC. now apply predict_length. Qed.

Lemma predict_length_is_periods_witness :
  exists l,
    predict (N := reference_numerics) [3; 4; 6; 5; 7] 3 "arima" = Ret l
    /\ length l = 3%nat.
Proof.
  apply (predict_length_is_periods reference_numerics [3; 4; 6; 5; 7] 3
                                   "arima").
  exact reference_contract.
Defined.

(** C10: a method name other than 'ets', 'arima' and 'linear' is served
    by the exponential-smoothing strategy: [predict] returns, and returns
    what it returns for 'ets'. *)
Theorem predict_unknown_method_is_ets
        (N : Numerics) (data : list Q) (periods : nat) (method : string) :
  method <> "ets"%string -> method <> "arima"%string ->
  method <> "linear"%string ->
  predict data periods method = predict data periods "ets"
  /\ exists l, predict data periods method = Ret l.
Proof.
  intros He Ha Hl. split; [|apply predict_returns].
  unfold predict.
  apply String.eqb_neq in He, Ha, Hl. rewrite He, Ha, Hl.
  reflexivity.
Qed.

Lemma predict_unknown_method_is_ets_witness :
  predict (N := reference_numerics) [3; 4; 6; 5; 7] 2 "prophet"
  = predict (N := reference_numerics) [3; 4; 6; 5; 7] 2 "ets"
  /\ exists l,
      predict (N := reference_numerics) [3; 4; 6; 5; 7] 2 "prophet" = Ret l.
Proof.
  apply (predict_unknown_method_is_ets reference_numerics
                                       [3; 4; 6; 5; 7] 2 "prophet");
    discriminate.
Defined.

(** ** forecast_with_intervals *)

Section Intervals.
Context {N : Numerics}.

(** On three values or more the method returns the point forecast of
    [predict] with bounds that do not depend on [alpha]; the lower bounds
    are clamped. *)
Lemma forecast_with_intervals_long
      (data : list Q) (periods : nat) (method : string) :
  (length data <? 3)%nat = false ->
  exists l lower upper,
    predict data periods method = Ret l /\
    Forall (Qle 0) lower /\
    forall alpha,
      forecast_with_intervals data periods alpha method
      = Ret {| forecast := l;
               lower_bound := lower;
               upper_bound := upper;
               confidence_level := Some ((1 - alpha) * 100) |}.
Proof.
  intros Hlen.
  destruct (predict_returns data periods method) as [l El].
  assert (Hclamped : forall {A} (f : A -> Q) (xs : list A),
             Forall (Qle 0) (map (fun x => Qmax0 (f x)) xs)).
  { intros A f xs. apply Forall_forall. intros v Hv.
    apply in_map_iff in Hv. destruct Hv as [x [<- _]]. apply Qmax0_nonneg. }
  unfold forecast_with_intervals. rewrite Hlen, El. cbn [bind].
  destruct (0 <? length (diff data))%nat; cbn [try_except].
  - do 3 eexists. split; [reflexivity|]. split; [|reflexivity].
    erewrite map_ext; [apply (Hclamped _ (fun p => fst p - z_score_95 * snd p))|].
    now intros [f s].
  - do 3 eexists. split; [reflexivity|]. split; [|reflexivity].
    apply Hclamped.
Qed.

Lemma forecast_with_intervals_short
      (data : list Q) (periods : nat) (alpha : Q) (method : string) :
  (length data <? 3)%nat = true ->
  forecast_with_intervals data periods alpha method
  = Ret {| forecast := replicate 0 periods;
           lower_bound := replicate 0 periods;
           upper_bound := replicate 0 periods;
           confidence_level := None |}.
Proof.
  intros Hlen. unfold forecast_with_intervals. now rewrite Hlen.
Qed.

End Intervals.

(** C5: on a series of non-negative values every point value of
    [predict], and every point value and lower bound of
    [forecast_with_intervals], is non-negative. *)
Theorem forecast_values_nonneg
        (N : Numerics) (data : list Q) (periods : nat) (alpha : Q)
        (method : string) :
  Forall (Qle 0) data ->
  (exists l, predict data periods method = Ret l /\ Forall (Qle 0) l) /\
  (exists r, forecast_with_intervals data periods alpha method = Ret r
             /\ Forall (Qle 0) (forecast r)
             /\ Forall (Qle 0) (lower_bound r)).
Proof.
  intros Hd. pose proof (predict_nonneg data periods method Hd) as Hp.
  split; [exact Hp|].
  destruct (length data <? 3)%nat eqn:Hlen.
  - rewrite forecast_with_intervals_short by exact Hlen.
    eexists. split; [reflexivity|]. cbn.
    split; apply replicate_nonneg; lra.
  - destruct (forecast_with_intervals_long data periods method Hlen)
      as [l [lower [upper [El [Hlower E]]]]].
    rewrite E. eexists. split; [reflexivity|]. cbn.
    destruct Hp as [l' [El' Hl']]. rewrite El in El'. injection El' as <-.
    split; [exact Hl' | exact Hlower].
Qed.

Lemma forecast_values_nonneg_witness :
  (exists l,
      predict (N := reference_numerics) [3; 0; 6; 5; 7] 3 "linear" = Ret l
      /\ Forall (Qle 0) l) /\
  (exists r,
      forecast_with_intervals (N := reference_numerics)
                              [3; 0; 6; 5; 7] 3 (5 # 100) "linear" = Ret r
      /\ Forall (Qle 0) (forecast r) /\ Forall (Qle 0) (lower_bound r)).
Proof.
  apply (forecast_values_nonneg reference_numerics [3; 0; 6; 5; 7] 3
                                (5 # 100) "linear").
  repeat constructor; discriminate.
Defined.

(** C9, as the code has it: two significance levels give the same
    forecast, lower bounds and upper bounds; the confidence level is
    reported for series of at least three values, where it is
    [(1 - alpha) * 100], and is absent for shorter ones. *)
Theorem forecast_with_intervals_alpha
        (N : Numerics) (data : list Q) (periods : nat) (method : string)
        (alpha1 alpha2 : Q) :
  exists r1 r2,
    forecast_with_intervals data periods alpha1 method = Ret r1 /\
    forecast_with_intervals data periods alpha2 method = Ret r2 /\
    forecast r1 = forecast r2 /\
    lower_bound r1 = lower_bound r2 /\
    upper_bound r1 = upper_bound r2 /\
    confidence_level r1
    = (if (length data <? 3)%nat then None
       else Some ((1 - alpha1) * 100)) /\
    confidence_level r2
    = (if (length data <? 3)%nat then None
       else Some ((1 - alpha2) * 100)).
Proof.
  destruct (length data <? 3)%nat eqn:Hlen.
  - rewrite !forecast_with_intervals_short by exact Hlen.
    do 2 eexists. repeat split; reflexivity.
  - destruct (forecast_with_intervals_long data periods method Hlen)
      as [l [lower [upper [_ [_ E]]]]].
    rewrite (E alpha1), (E alpha2). do 2 eexists. repeat split; reflexivity.
Qed.

(** C9 as stated fails: a series of two values gets no confidence level. *)
Lemma forecast_with_intervals_short_no_confidence_level :
  ~ (forall (data : list Q) (periods : nat) (method : string) (alpha : Q),
        exists r,
          forecast_with_intervals (N := reference_numerics)
                                  data periods alpha method = Ret r
          /\ confidence_level r = Some ((1 - alpha) * 100)).
Proof.
  intros H. destruct (H [1; 2] 3%nat "ets"%string (5 # 100)) as [r [E C]].
  injection E as <-. discriminate C.
Qed.

(** ** detect_anomalies *)

Section Anomalies.
Context {N : Numerics}.

Lemma z_score_series_length (ts : list Q) (means stds : list (option Q)) :
  length means = length ts -> length stds = length ts ->
  length (z_score_series ts means stds) = length ts.
Proof.
  revert means stds.
  induction ts as [|x ts IH]; intros [|m means] [|s stds] Hm Hs;
    try discriminate; [reflexivity|].
  cbn. f_equal. apply IH; now injection Hm; injection Hs.
Qed.

Lemma anomaly_z_scores_length (data : list Q) :
  length (anomaly_z_scores data) = length data.
Proof.
  unfold anomaly_z_scores. apply z_score_series_length.
  - unfold rolling_mean. now rewrite length_map, length_seq.
  - unfold rolling_std. now rewrite length_map, length_seq.
Qed.

(** The scan keeps, in order, the positions whose z-score passes the
    test, and records that z-score. *)
Lemma scan_anomalies_indices (data : list Q) (threshold : Q)
      (zs : list float) (i : nat) :
  map an_index (scan_anomalies data threshold i zs)
  = filter (fun j =>
              negb (math_isnan (nth (j - i) zs NaN))
              && float_abs_gt (nth (j - i) zs NaN) threshold)
           (seq i (length zs)).
Proof.
  revert i. induction zs as [|z zs IH]; intros i; [reflexivity|].
  assert (Htail :
    filter (fun j =>
              negb (math_isnan (nth (j - i) (z :: zs) NaN))
              && float_abs_gt (nth (j - i) (z :: zs) NaN) threshold)
           (seq (S i) (length zs))
    = filter (fun j =>
                negb (math_isnan (nth (j - S i) zs NaN))
                && float_abs_gt (nth (j - S i) zs NaN) threshold)
             (seq (S i) (length zs))).
  { apply filter_ext_in. intros j Hj. apply in_seq in Hj.
    replace (j - i)%nat with (S (j - S i)) by lia. reflexivity. }
  cbn [length seq filter]. rewrite Htail, <- IH.
  replace (i - i)%nat with 0%nat by lia. cbn [nth scan_anomalies].
  destruct (negb (math_isnan z) && float_abs_gt z threshold); reflexivity.
Qed.

Lemma scan_anomalies_in (data : list Q) (threshold : Q)
      (zs : list float) (i : nat) (a : Anomaly) :
  In a (scan_anomalies data threshold i zs) ->
  (i <= an_index a < i + length zs)%nat /\
  an_z_score a = nth (an_index a - i) zs NaN /\
  math_isnan (an_z_score a) = false /\
  float_abs_gt (an_z_score a) threshold = true.
Proof.
  revert i. induction zs as [|z zs IH]; intros i; [intros []|].
  cbn [scan_anomalies].
  destruct (negb (math_isnan z) && float_abs_gt z threshold) eqn:E.
  - intros [<- | Hin].
    + cbn [an_index an_z_score length].
      replace (i - i)%nat with 0%nat by lia. cbn [nth].
      apply andb_true_iff in E. destruct E as [E1 E2].
      apply negb_true_iff in E1. repeat split; auto; lia.
    + destruct (IH (S i) Hin) as [Hr [Hz [Hf1 Hf2]]]. cbn [length].
      replace (an_index a - i)%nat with (S (an_index a - S i)) by lia.
      cbn [nth]. repeat split; auto; lia.
  - intros Hin. destruct (IH (S i) Hin) as [Hr [Hz [Hf1 Hf2]]]. cbn [length].
    replace (an_index a - i)%nat with (S (an_index a - S i)) by lia.
    cbn [nth]. repeat split; auto; lia.
Qed.

Lemma fillna0_nth (zs : list float) (i : nat) :
  nth i (fillna0 zs) NaN
  = match nth i zs NaN with
    | NaN => if (i <? length zs)%nat then Fin 0 else NaN
    | z => z
    end.
Proof.
  unfold fillna0. revert i.
  induction zs as [|z zs IH]; intros [|i]; try reflexivity.
  - destruct z; reflexivity.
  - exact (IH i).
Qed.

End Anomalies.

(** C7: on a series of at least three values, the z-score output has the
    length of the series and holds 0 exactly where the z-score is NaN;
    no reported anomaly sits at such a position; the flagged positions are
    those with a defined z-score beyond the threshold, and the anomaly
    rate is their number over the length of the series. *)
Theorem detect_anomalies_undefined_z_scores
        (N : Numerics) (data : list Q) (threshold : Q) :
  (3 <= length data)%nat ->
  exists r,
    detect_anomalies data threshold = Ret (Ok r) /\
    length (z_scores r) = length data /\
    (forall i, (i < length data)%nat ->
               nth i (anomaly_z_scores data) NaN = NaN ->
               nth i (z_scores r) NaN = Fin 0) /\
    (forall a, In a (anomalies r) ->
               nth (an_index a) (anomaly_z_scores data) NaN <> NaN) /\
    anomaly_indices r
    = filter (flagged data threshold) (seq 0 (length data)) /\
    length (anomalies r)
    = length (filter (flagged data threshold) (seq 0 (length data))) /\
    anomaly_rate r = Qlen (anomalies r) / Qlen data.
Proof.
  intros H3. unfold detect_anomalies.
  destruct (length data <? 3)%nat eqn:Hlen;
    [apply Nat.ltb_lt in Hlen; lia|].
  unfold py_div.
  destruct (Qeq_bool (Qlen data) 0) eqn:E.
  { apply Qeq_bool_iff in E.
    pose proof (Qlen_pos data ltac:(lia)). lra. }
  cbn [bind try_except]. eexists. split; [reflexivity|].
  cbn [z_scores anomalies anomaly_indices anomaly_rate].
  assert (Hidx :
    map an_index (scan_anomalies data threshold 0 (anomaly_z_scores data))
    = filter (flagged data threshold) (seq 0 (length data))).
  { rewrite scan_anomalies_indices, anomaly_z_scores_length.
    apply filter_ext. intros j. unfold flagged.
    now rewrite Nat.sub_0_r. }
  repeat split.
  - unfold fillna0. now rewrite length_map, anomaly_z_scores_length.
  - intros i Hi Hnan. rewrite fillna0_nth, Hnan.
    rewrite anomaly_z_scores_length.
    apply Nat.ltb_lt in Hi. now rewrite Hi.
  - intros a Ha Hnan. apply scan_anomalies_in in Ha.
    destruct Ha as [_ [Hz [Hf _]]].
    rewrite Nat.sub_0_r in Hz. rewrite Hz, Hnan in Hf. discriminate.
  - exact Hidx.
  - rewrite <- Hidx. now rewrite length_map.
Qed.

Lemma detect_anomalies_undefined_z_scores_witness :
  exists r,
    detect_anomalies (N := reference_numerics) [1; 1; 1; 1; 1; 9] 2
    = Ret (Ok r) /\
    length (z_scores r) = length [1; 1; 1; 1; 1; 9] /\
    (forall i, (i < length [1; 1; 1; 1; 1; 9])%nat ->
               nth i (anomaly_z_scores [1; 1; 1; 1; 1; 9]) NaN = NaN ->
               nth i (z_scores r) NaN = Fin 0) /\
    (forall a, In a (anomalies r) ->
               nth (an_index a) (anomaly_z_scores [1; 1; 1; 1; 1; 9]) NaN
               <> NaN) /\
    anomaly_indices r
    = filter (flagged [1; 1; 1; 1; 1; 9] 2)
             (seq 0 (length [1; 1; 1; 1; 1; 9])) /\
    length (anomalies r)
    = length (filter (flagged [1; 1; 1; 1; 1; 9] 2)
                     (seq 0 (length [1; 1; 1; 1; 1; 9]))) /\
    anomaly_rate r = Qlen (anomalies r) / Qlen [1; 1; 1; 1; 1; 9].
Proof.
  apply (detect_anomalies_undefined_z_scores reference_numerics
                                             [1; 1; 1; 1; 1; 9] 2).
  cbn. lia.
Defined.

(** ** detect_change_points *)

Lemma max_abs_representative (g : list ChangePoint) :
  g <> [] -> exists c, max_abs g = Ret c /\ representative g c.
Proof.
  destruct g as [|c0 rest]; [congruence|]. intros _.
  eexists. split; [reflexivity|].
  assert (H : forall rest best,
    let m := fold_left
               (fun best x =>
                  if Qltb (Qabs (cp_cumulative_sum best))
                          (Qabs (cp_cumulative_sum x))
                  then x else best) rest best in
    (m = best \/ In m rest) /\
    Qabs (cp_cumulative_sum best) <= Qabs (cp_cumulative_sum m) /\
    forall x, In x rest ->
              Qabs (cp_cumulative_sum x) <= Qabs (cp_cumulative_sum m)).
  { clear. induction rest as [|y rest IH]; intros best; cbn.
    - split; [now left|]. split; [lra | intros x []].
    - destruct (Qltb (Qabs (cp_cumulative_sum best))
                     (Qabs (cp_cumulative_sum y))) eqn:E.
      + apply Qltb_lt in E. destruct (IH y) as [Hin [Hge Hall]].
        split; [destruct Hin; auto|]. split; [lra|].
        intros x [<- | Hx]; auto.
      + apply Qltb_ge in E. destruct (IH best) as [Hin [Hge Hall]].
        split; [destruct Hin; auto|]. split; [exact Hge|].
        intros x [<- | Hx]; [lra | auto]. }
  destruct (H rest c0) as [Hin [Hge Hall]]. split.
  - destruct Hin as [-> | Hin]; [now left | now right].
  - intros x [<- | Hx]; auto.
Qed.

Lemma last_of_snoc (g : list ChangePoint) (c : ChangePoint) :
  last_of (g ++ [c]) = Ret c.
Proof.
  destruct g as [|a g]; [reflexivity|].
  cbn [app last_of]. f_equal. apply last_last.
Qed.

Lemma last_default {A} (l : list A) (d d' : A) :
  l <> [] -> last l d = last l d'.
Proof.
  induction l as [|a l IH]; [congruence|]. intros _.
  destruct l as [|c l]; [reflexivity|].
  change (last (c :: l) d = last (c :: l) d'). apply IH. discriminate.
Qed.

Lemma last_of_cons (b b' : ChangePoint) (g : list ChangePoint) :
  last_of (b :: b' :: g) = last_of (b' :: g).
Proof.
  cbn [last_of]. f_equal. destruct g as [|x g]; [reflexivity|].
  change (last (x :: g) b = last (x :: g) b').
  apply last_default. discriminate.
Qed.

Lemma sorted_snoc (g : list ChangePoint) (a c : ChangePoint) :
  Sorted near g -> last_of g = Ret a -> near a c -> Sorted near (g ++ [c]).
Proof.
  intros Hs. revert a. induction Hs as [|b g Hs IH Hb]; intros a Hl Hn.
  - discriminate.
  - destruct g as [|b' g].
    + cbn in Hl. injection Hl as ->. cbn. repeat constructor. exact Hn.
    + rewrite last_of_cons in Hl. cbn [app]. constructor.
      * exact (IH a Hl Hn).
      * inversion Hb; subst. now constructor.
Qed.

(** The invariant of the grouping loop: from a current cluster [cur], the
    loop closes clusters [done], each with its representative appended to
    the output, and stops with the cluster [cur'] still open. *)
Lemma group_loop_clusters (rest cur grouped : list ChangePoint) :
  cluster cur ->
  exists done cur' reps,
    group_loop rest cur grouped = Ret (cur', grouped ++ reps) /\
    Forall2 representative done reps /\
    concat (done ++ [cur']) = cur ++ rest /\
    Forall cluster (done ++ [cur']) /\
    separated (done ++ [cur']) /\
    exists tl, hd [] (done ++ [cur']) = cur ++ tl.
Proof.
  revert cur grouped. induction rest as [|cp rest IH]; intros cur grouped Hc.
  - exists [], cur, []. cbn. rewrite !app_nil_r.
    repeat split; auto; try constructor; auto.
    exists []. now rewrite app_nil_r.
  - cbn [group_loop]. destruct Hc as [Hne Hs].
    destruct cur as [|c0 cur0] eqn:Ecur; [congruence|]. rewrite <- Ecur in *.
    assert (Hlast : exists prev, last_of cur = Ret prev)
      by (rewrite Ecur; cbn; eauto).
    destruct Hlast as [prev Hprev]. rewrite Hprev. cbn [bind].
    destruct (Z.of_nat (cp_index cp) - Z.of_nat (cp_index prev) <? 5)%Z
      eqn:Hnear.
    + apply Z.ltb_lt in Hnear.
      assert (Hc' : cluster (cur ++ [cp])).
      { split; [now destruct cur|]. now apply (sorted_snoc cur prev cp). }
      destruct (IH (cur ++ [cp]) grouped Hc')
        as [done [cur' [reps [E [Hr [Hcat [Hcl [Hsep [tl Hhd]]]]]]]]].
      exists done, cur', reps. rewrite E.
      repeat split; auto.
      * now rewrite Hcat, <- app_assoc.
      * exists (cp :: tl). now rewrite Hhd, <- app_assoc.
    + apply Z.ltb_ge in Hnear.
      destruct (max_abs_representative cur Hne) as [m [Em Hm]].
      rewrite Em. cbn [bind].
      assert (Hc' : cluster [cp]) by (split; [discriminate | repeat constructor]).
      destruct (IH [cp] (grouped ++ [m]) Hc')
        as [done [cur' [reps [E [Hr [Hcat [Hcl [Hsep [tl Hhd]]]]]]]]].
      exists (cur :: done), cur', (m :: reps). rewrite E, <- app_assoc.
      split; [reflexivity|]. split; [now constructor|].
      split; [cbn; now rewrite Hcat|].
      split; [cbn; constructor; [now split | exact Hcl]|].
      split.
      * cbn. destruct (done ++ [cur']) as [|g2 G] eqn:EG.
        { now destruct done. }
        constructor; [|exact Hsep].
        exists prev, cp. cbn in Hhd. subst g2. repeat split; auto.
        unfold near. lia.
      * exists []. cbn. now rewrite app_nil_r.
Qed.

Lemma group_change_points_clusters (cps : list ChangePoint) :
  exists groups reps,
    group_change_points cps = Ret reps /\
    Forall2 representative groups reps /\
    concat groups = cps /\
    Forall cluster groups /\
    separated groups.
Proof.
  destruct cps as [|cp0 rest].
  - exists [], []. repeat split; constructor.
  - assert (Hc : cluster [cp0])
      by (split; [discriminate | repeat constructor]).
    destruct (group_loop_clusters rest [cp0] [] Hc)
      as [done [cur' [reps [E [Hr [Hcat [Hcl [Hsep _]]]]]]]].
    assert (Hcur : cluster cur').
    { apply Forall_app in Hcl. destruct Hcl as [_ Hcl]. now inversion Hcl. }
    destruct (max_abs_representative cur' (proj1 Hcur)) as [m [Em Hm]].
    exists (done ++ [cur']), (reps ++ [m]).
    cbn [group_change_points]. rewrite E. cbn [bind app].
    destruct cur' as [|c cur'']; [now destruct Hcur|].
    rewrite Em. cbn [bind].
    repeat split; auto.
    apply Forall2_app; [exact Hr | constructor; [exact Hm | constructor]].
Qed.

Lemma strongly_sorted_app {A} (R : A -> A -> Prop) (l1 l2 : list A) :
  StronglySorted R (l1 ++ l2) ->
  StronglySorted R l1 /\ StronglySorted R l2 /\
  forall x y, In x l1 -> In y l2 -> R x y.
Proof.
  induction l1 as [|a l1 IH]; cbn; intros H.
  - repeat split; [constructor | exact H | intros x y []].
  - inversion H as [|a' l' Hs Hf]; subst.
    destruct (IH Hs) as [H1 [H2 H12]].
    rewrite Forall_app in Hf. destruct Hf as [Hf1 Hf2].
    repeat split; [now constructor | exact H2 |].
    intros x y [<- | Hx] Hy; [|now apply H12].
    rewrite Forall_forall in Hf2. now apply Hf2.
Qed.

Lemma last_in {A} (l : list A) (d : A) : In (last l d) (d :: l).
Proof.
  induction l as [|x l IH]; [now left|].
  destruct l as [|y l]; [right; now left|].
  change (In (last (y :: l) d) (d :: x :: y :: l)).
  destruct IH as [<- | IH]; [now left | right; now right].
Qed.

Lemma strongly_sorted_last (l : list ChangePoint) (a x : ChangePoint) :
  StronglySorted index_lt l -> last_of l = Ret a -> In x l ->
  (cp_index x <= cp_index a)%nat.
Proof.
  intros Hs. revert a x. induction Hs as [|b l Hs IH Hb]; intros a x Hl Hx.
  - destruct Hx.
  - destruct l as [|b' l].
    + cbn in Hl. injection Hl as <-. destruct Hx as [<- | []]. lia.
    + rewrite last_of_cons in Hl. destruct Hx as [<- | Hx].
      * rewrite Forall_forall in Hb.
        assert (Ha : In a (b' :: l)).
        { cbn [last_of] in Hl. injection Hl as <-. apply last_in. }
        specialize (Hb a Ha). unfold index_lt in Hb. lia.
      * now apply IH.
Qed.

Section ChangePoints.
Context {N : Numerics}.

Lemma raw_change_points_sorted (data : list Q) (threshold : Q)
      (deviation cs : list Q) :
  StronglySorted index_lt (raw_change_points data threshold deviation cs).
Proof.
  unfold raw_change_points.
  generalize (length cs - 1)%nat as m. generalize 1%nat as a.
  intros a m. revert a. induction m as [|m IH]; intros a; cbn [seq flat_map].
  - constructor.
  - destruct (Qltb _ _); cbn [app]; [|apply IH].
    constructor; [apply IH|].
    apply Forall_forall. intros c Hc. apply in_flat_map in Hc.
    destruct Hc as [i [Hi Hc]]. apply in_seq in Hi.
    destruct (Qltb _ _); [|destruct Hc].
    destruct Hc as [<- | []]. unfold index_lt. cbn. lia.
Qed.

End ChangePoints.

(** Candidates of different clusters are at least five positions apart. *)
Lemma clusters_far_apart (g1 : list ChangePoint)
      (G : list (list ChangePoint)) (c1 c2 : ChangePoint) :
  separated (g1 :: G) -> StronglySorted index_lt (concat (g1 :: G)) ->
  In c1 g1 -> In c2 (concat G) ->
  (5 <= Z.of_nat (cp_index c2) - Z.of_nat (cp_index c1))%Z.
Proof.
  intros Hsep Hs H1 H2.
  inversion Hsep as [| |g1' g2 G' Hap Hsep' Eq]; subst; [destruct H2|].
  destruct Hap as [a [b [Ha [Hb Hfar]]]].
  cbn [concat] in Hs. apply strongly_sorted_app in Hs.
  destruct Hs as [Hs1 [Hs2 _]].
  pose proof (strongly_sorted_last g1 a c1 Hs1 Ha H1) as Hle1.
  destruct g2 as [|b' g2]; [discriminate|]. injection Hb as ->.
  cbn [concat app] in Hs2, H2.
  inversion Hs2 as [|b' l' _ Hf]; subst. rewrite Forall_forall in Hf.
  unfold near in Hfar.
  destruct H2 as [<- | H2]; [lia|].
  specialize (Hf c2 H2). unfold index_lt in Hf. lia.
Qed.

(** Candidates fewer than five positions apart share a cluster. *)
Lemma clusters_merge_near (G : list (list ChangePoint))
      (c1 c2 : ChangePoint) :
  separated G -> StronglySorted index_lt (concat G) ->
  In c1 (concat G) -> In c2 (concat G) -> within_5 c1 c2 ->
  exists g, In g G /\ In c1 g /\ In c2 g.
Proof.
  induction G as [|g1 G IH]; intros Hsep Hs H1 H2 Hw; [destruct H1|].
  assert (Hsep' : separated G).
  { inversion Hsep; subst; [constructor | assumption]. }
  assert (Hs' : StronglySorted index_lt (concat G)).
  { cbn [concat] in Hs. now apply strongly_sorted_app in Hs. }
  cbn [concat] in H1, H2. apply in_app_or in H1, H2. unfold within_5 in Hw.
  destruct H1 as [H1 | H1], H2 as [H2 | H2].
  - exists g1. repeat split; auto. now left.
  - pose proof (clusters_far_apart g1 G c1 c2 Hsep Hs H1 H2). lia.
  - pose proof (clusters_far_apart g1 G c2 c1 Hsep Hs H2 H1). lia.
  - destruct (IH Hsep' Hs' H1 H2 Hw) as [g [Hg [Hg1 Hg2]]].
    exists g. repeat split; auto. now right.
Qed.

(** The representatives come in the order of the series. *)
Lemma representatives_sorted (G : list (list ChangePoint))
      (reps : list ChangePoint) :
  Forall2 representative G reps -> StronglySorted index_lt (concat G) ->
  StronglySorted index_lt reps.
Proof.
  induction 1 as [|g c G reps Hc HF IH]; intros Hs; [constructor|].
  cbn [concat] in Hs. apply strongly_sorted_app in Hs.
  destruct Hs as [_ [Hs2 H12]].
  constructor; [now apply IH|].
  apply Forall_forall. intros c' Hc'. apply H12; [apply Hc|].
  clear - HF Hc'. induction HF as [|g' x G reps [Hx _] HF IH];
    [destruct Hc'|].
  cbn [concat]. apply in_or_app. destruct Hc' as [<- | Hc']; auto.
Qed.

Lemma cumsum_from_length (acc : Q) (l : list Q) :
  length (cumsum_from acc l) = length l.
Proof.
  revert acc. induction l as [|v l IH]; intros acc; cbn; auto.
Qed.

(** C6: on a series of at least five values the raw candidates are cut
    into clusters, consecutive runs in which each candidate is fewer than
    five positions after its predecessor and which are closed where the
    gap reaches five; candidates fewer than five positions apart share a
    cluster; each cluster gives exactly one representative, a member of
    greatest absolute cumulative sum; the representatives are returned in
    increasing index order, with the cumulative-sum sequence of the whole
    series. *)
Theorem detect_change_points_clusters
        (N : Numerics) (data : list Q) (threshold : Q) :
  (5 <= length data)%nat ->
  exists r groups,
    detect_change_points data threshold = Ret (Ok r) /\
    concat groups = candidates data threshold /\
    Forall cluster groups /\
    separated groups /\
    (forall c1 c2,
        In c1 (candidates data threshold) ->
        In c2 (candidates data threshold) ->
        within_5 c1 c2 -> exists g, In g groups /\ In c1 g /\ In c2 g) /\
    Forall2 representative groups (change_points r) /\
    StronglySorted index_lt (change_points r) /\
    cumulative_sum r = np_cumsum (map (fun v => v - np_mean data) data) /\
    length (cumulative_sum r) = length data.
Proof.
  intros H5. unfold detect_change_points.
  destruct (length data <? 5)%nat eqn:Hlen;
    [apply Nat.ltb_lt in Hlen; lia|].
  fold (candidates data threshold).
  destruct (group_change_points_clusters (candidates data threshold))
    as [groups [reps [E [Hrep [Hcat [Hcl Hsep]]]]]].
  rewrite E. cbn [bind try_except].
  assert (Hs : StronglySorted index_lt (concat groups)).
  { rewrite Hcat. apply raw_change_points_sorted. }
  eexists. exists groups. split; [reflexivity|].
  cbn [change_points cumulative_sum].
  repeat split; auto.
  - intros c1 c2 H1 H2 Hw. rewrite <- Hcat in H1, H2.
    now apply clusters_merge_near.
  - now apply (representatives_sorted groups).
  - unfold np_cumsum. now rewrite cumsum_from_length, length_map.
Qed.

Lemma detect_change_points_clusters_witness :
  exists r groups,
    detect_change_points (N := reference_numerics)
                         [0; 0; 0; 0; 0; 10; 10; 10; 10; 10] 1
    = Ret (Ok r) /\
    concat groups
    = candidates (N := reference_numerics)
                 [0; 0; 0; 0; 0; 10; 10; 10; 10; 10] 1 /\
    Forall cluster groups /\
    separated groups /\
    (forall c1 c2,
        In c1 (candidates (N := reference_numerics)
                          [0; 0; 0; 0; 0; 10; 10; 10; 10; 10] 1) ->
        In c2 (candidates (N := reference_numerics)
                          [0; 0; 0; 0; 0; 10; 10; 10; 10; 10] 1) ->
        within_5 c1 c2 -> exists g, In g groups /\ In c1 g /\ In c2 g) /\
    Forall2 representative groups (change_points r) /\
    StronglySorted index_lt (change_points r) /\
    cumulative_sum r
    = np_cumsum (map (fun v => v - np_mean [0; 0; 0; 0; 0; 10; 10; 10; 10; 10])
                     [0; 0; 0; 0; 0; 10; 10; 10; 10; 10]) /\
    length (cumulative_sum r)
    = length [0; 0; 0; 0; 0; 10; 10; 10; 10; 10].
Proof.
  apply (detect_change_points_clusters
           reference_numerics [0; 0; 0; 0; 0; 10; 10; 10; 10; 10] 1).
  cbn. lia.
Defined.

(** A step from 0 to 10 after five observations: the candidates are the
    positions 1 to 7, one cluster, represented by position 4. *)
Example detect_change_points_step :
  exists r,
    detect_change_points (N := reference_numerics)
                         [0; 0; 0; 0; 0; 10; 10; 10; 10; 10] 1
    = Ret (Ok r)
    /\ map cp_index (change_points r) = [4%nat]
    /\ map cp_index (candidates (N := reference_numerics)
                                [0; 0; 0; 0; 0; 10; 10; 10; 10; 10] 1)
       = [1; 2; 3; 4; 5; 6; 7]%nat.
Proof.
  eexists. split; [vm_compute; reflexivity|].
  split; vm_compute; reflexivity.
Qed.

(** ** decompose_time_series and the period search *)

(** With no period given, [decompose_time_series] never searches: a
    decomposition that succeeds has period 12. *)
Lemma decompose_time_series_default_period
      (N : Numerics) (data : list Q) (model : decomposition_model)
      (r : Decomposition) :
  decompose_time_series data None model = Ret (Ok r) -> de_period r = 12%nat.
Proof.
  unfold decompose_time_series.
  destruct (length data <? 24)%nat; [discriminate|].
  destruct (seasonal_decompose data model 12) as [d|e]; cbn; [|discriminate].
  now intros [= <-].
Qed.

(** The search of [detect_seasonality] returns one of its two candidates. *)
Lemma auto_detect_period_candidates (N : Numerics) (ts : list Q) :
  auto_detect_period ts = 12%nat \/ auto_detect_period ts = 4%nat.
Proof.
  unfold auto_detect_period, periods_to_try. cbn [fold_left].
  set (st := try_period ts (12%nat, pos_inf) 12).
  assert (Hst : fst st = 12%nat).
  { unfold st, try_period. destruct (_ <=? _)%nat; [|reflexivity].
    destruct (seasonal_decompose _ _ _); [|reflexivity].
    destruct (_ <? _)%nat; [|reflexivity].
    destruct (Qltb _ _); [|reflexivity].
    destruct (float_lt _ _); reflexivity. }
  clearbody st. unfold try_period.
  destruct (_ <=? _)%nat; [|now left].
  destruct (seasonal_decompose _ _ _); [|now left].
  destruct (_ <? _)%nat; [|now left].
  destruct (Qltb _ _); [|now left].
  destruct (float_lt _ _); [now right | now left].
Qed.

Lemma classical_decompose_additive_returns (x : list Q) (p : nat) :
  (p <? 2)%nat || (length x <? 2 * p)%nat = false ->
  exists d, classical_decompose x additive p = Ret d.
Proof.
  intros H. unfold classical_decompose. rewrite H. eexists. reflexivity.
Qed.

(** C1, at a failing input: on [quarterly_series], with the classical
    decomposition, the candidate period 4 has the lower ratio of residual
    to seasonal variance (9/160 against 197/800) and the period search of
    [detect_seasonality] selects it, while [decompose_time_series] with no
    period given decomposes with period 12. *)
Theorem decompose_time_series_ignores_candidates :
  (24 <= length quarterly_series)%nat /\
  auto_detect_period (N := reference_numerics) quarterly_series = 4%nat /\
  (exists r, detect_seasonality (N := reference_numerics)
                                quarterly_series None = Ret (Ok r)
             /\ se_period r = 4%nat) /\
  (exists r, decompose_time_series (N := reference_numerics)
                                   quarterly_series None additive
             = Ret (Ok r)
             /\ de_period r = 12%nat).
Proof.
  split; [cbn; lia|].
  assert (H4 : auto_detect_period (N := reference_numerics)
                                  quarterly_series = 4%nat)
    by (vm_compute; reflexivity).
  split; [exact H4|]. split.
  - destruct (classical_decompose_additive_returns quarterly_series 4
                                                   eq_refl) as [d Hd].
    unfold detect_seasonality. rewrite H4.
    change (length quarterly_series <? 24)%nat with false. cbv iota.
    change (@seasonal_decompose reference_numerics) with classical_decompose.
    rewrite Hd. eexists. split; reflexivity.
  - destruct (classical_decompose_additive_returns quarterly_series 12
                                                   eq_refl) as [d Hd].
    unfold decompose_time_series.
    change (length quarterly_series <? 24)%nat with false. cbv iota.
    change (@seasonal_decompose reference_numerics) with classical_decompose.
    rewrite Hd. eexists. split; reflexivity.
Qed.

(** * Further properties of the analyzer *)

(** ** calculate_growth_rate *)

Lemma growth_rates_cons (prev cur : Q) (rest : list Q) :
  growth_rates (prev :: cur :: rest)
  = (growth_rate <-
       (if negb (Qeq_bool prev 0) then
          q <- py_div (cur - prev) prev ;; Ret (q * 100)
        else Ret 0) ;;
     rates <- growth_rates (cur :: rest) ;;
     Ret (growth_rate :: rates)).
Proof. reflexivity. Qed.

Lemma growth_rates_returns (data : list Q) :
  exists l, growth_rates data = Ret l /\ length l = (length data - 1)%nat.
Proof.
  induction data as [|prev rest IH]; [now exists []|].
  destruct rest as [|cur rest']; [now exists []|].
  destruct IH as [l [El Hl]].
  rewrite growth_rates_cons, El. unfold py_div.
  destruct (Qeq_bool prev 0); cbn [negb bind];
    eexists; (split; [reflexivity|]); cbn [length] in *; lia.
Qed.

Lemma growth_rates_nth (data l : list Q) (i : nat) :
  growth_rates data = Ret l -> (S i < length data)%nat ->
  nth i l 0
  = if Qeq_bool (nth i data 0) 0 then 0
    else (nth (S i) data 0 - nth i data 0) / nth i data 0 * 100.
Proof.
  revert l i. induction data as [|prev rest IH]; intros l i E Hi;
    [cbn in Hi; lia|].
  destruct rest as [|cur rest']; [cbn in Hi; lia|].
  destruct (growth_rates_returns (cur :: rest')) as [l' [El' _]].
  rewrite growth_rates_cons, El' in E. unfold py_div in E.
  destruct i as [|i].
  - cbn [nth]. destruct (Qeq_bool prev 0); cbn [negb bind] in E;
      injection E as <-; reflexivity.
  - assert (Hl : l = (if Qeq_bool prev 0 then 0
                      else (cur - prev) / prev * 100) :: l').
    { destruct (Qeq_bool prev 0); cbn [negb bind] in E;
        injection E as <-; reflexivity. }
    rewrite Hl. cbn [nth]. apply (IH l' i El'). cbn [length] in *. lia.
Qed.

(** X1: [calculate_growth_rate] never fails: it returns one rate for each
    pair of consecutive values (none for fewer than two values); the rate
    after a zero value is 0, any other rate is the relative change in
    percent. *)
Theorem calculate_growth_rate_rates (data : list Q) :
  exists l,
    calculate_growth_rate data = Ret l /\
    length l = (length data - 1)%nat /\
    forall i, (S i < length data)%nat ->
      nth i l 0
      = if Qeq_bool (nth i data 0) 0 then 0
        else (nth (S i) data 0 - nth i data 0) / nth i data 0 * 100.
Proof.
  unfold calculate_growth_rate.
  destruct (growth_rates_returns data) as [l [El Hl]].
  destruct (length data <? 2)%nat eqn:E.
  - apply Nat.ltb_lt in E. exists []. cbn. repeat split; [lia|].
    intros i Hi. lia.
  - rewrite El. exists l. cbn. repeat split; [exact Hl|].
    intros i Hi. now apply growth_rates_nth.
Qed.

(** X2: on a series of positive values the sign of a growth rate is the
    sign of the step: a step that does not decrease has a rate of at
    least 0, a step that does not increase a rate of at most 0. *)
Theorem calculate_growth_rate_sign (data : list Q) :
  Forall (Qlt 0) data ->
  exists l,
    calculate_growth_rate data = Ret l /\
    forall i, (S i < length data)%nat ->
      (nth i data 0 <= nth (S i) data 0 -> 0 <= nth i l 0) /\
      (nth (S i) data 0 <= nth i data 0 -> nth i l 0 <= 0).
Proof.
  intros Hpos. unfold calculate_growth_rate.
  destruct (growth_rates_returns data) as [l [El Hl]].
  destruct (length data <? 2)%nat eqn:E.
  - apply Nat.ltb_lt in E. exists []. split; [reflexivity|].
    intros i Hi. lia.
  - rewrite El. exists l. split; [reflexivity|].
    intros i Hi. rewrite (growth_rates_nth data l i El Hi).
    assert (Hprev : 0 < nth i data 0).
    { rewrite Forall_forall in Hpos. apply Hpos, nth_In. lia. }
    destruct (Qeq_bool (nth i data 0) 0) eqn:Ez;
      [apply Qeq_bool_iff in Ez; lra|].
    set (prev := nth i data 0) in *. set (cur := nth (S i) data 0).
    split; intros Hstep.
    + assert (0 <= (cur - prev) / prev) by (apply Qle_shift_div_l; lra).
      lra.
    + assert ((cur - prev) / prev <= 0) by (apply Qle_shift_div_r; lra).
      lra.
Qed.

Lemma calculate_growth_rate_sign_witness :
  exists l,
    calculate_growth_rate [100; 110; 99; 99] = Ret l /\
    forall i, (S i < length [100; 110; 99; 99])%nat ->
      (nth i [100; 110; 99; 99] 0 <= nth (S i) [100; 110; 99; 99] 0 ->
       0 <= nth i l 0) /\
      (nth (S i) [100; 110; 99; 99] 0 <= nth i [100; 110; 99; 99] 0 ->
       nth i l 0 <= 0).
Proof.
  apply (calculate_growth_rate_sign [100; 110; 99; 99]).
  repeat constructor.
Defined.

(** ** calculate_moving_average *)

Lemma fillna_from_length (s : list (option Q)) (other : list Q) :
  length s = length other -> length (fillna_from s other) = length other.
Proof.
  revert other. induction s as [|[v|] s IH]; intros [|o other] H;
    try discriminate; cbn; auto.
Qed.

Lemma fillna_from_nth (s : list (option Q)) (other : list Q) (i : nat) :
  length s = length other -> (i < length other)%nat ->
  nth i (fillna_from s other) 0
  = match nth i s None with
    | Some v => v
    | None => nth i other 0
    end.
Proof.
  revert other i. induction s as [|x s IH]; intros [|o other] i H Hi;
    try discriminate; [cbn in Hi; lia|].
  injection H as H. destruct i as [|i].
  - destruct x; reflexivity.
  - cbn [length] in Hi. destruct x; cbn [fillna_from nth];
      apply IH; auto; lia.
Qed.

Lemma map_seq_nth {A} (f : nat -> A) (n i : nat) (d : A) :
  (i < n)%nat -> nth i (map f (seq 0 n)) d = f i.
Proof.
  intros Hi. rewrite (nth_indep _ d (f 0%nat))
    by now rewrite length_map, length_seq.
  rewrite map_nth, seq_nth; auto.
Qed.

Lemma moving_average_nth (data : list Q) (window : nat) :
  length (fillna_from (rolling_mean_any window data) data) = length data /\
  forall i, (i < length data)%nat ->
    nth i (fillna_from (rolling_mean_any window data) data) 0
    = if (window =? 0)%nat || (i + 1 <? window)%nat then nth i data 0
      else np_mean (firstn window (skipn (i + 1 - window) data)).
Proof.
  assert (Hlen : length (rolling_mean_any window data) = length data).
  { unfold rolling_mean_any, rolling_mean.
    destruct window; now rewrite length_map, ?length_seq. }
  split; [now apply fillna_from_length|].
  intros i Hi. rewrite fillna_from_nth by assumption.
  unfold rolling_mean_any. destruct window as [|w].
  - cbn [Nat.eqb orb].
    assert (Hnone : forall (l : list Q) k,
               nth k (map (fun _ => @None Q) l) None = None).
    { induction l as [|x l IHl]; intros [|k]; cbn; auto. }
    now rewrite Hnone.
  - unfold rolling_mean. rewrite map_seq_nth by assumption.
    cbn [Nat.eqb orb]. unfold window_at.
    destruct (i + 1 <? S w)%nat; reflexivity.
Qed.

(** X3: [calculate_moving_average] keeps the length of the series; the
    positions before the first full window, and every position for a
    window of 0, keep their original value; every other position holds
    the mean of the [window] values that end there. *)
Theorem calculate_moving_average_values (data : list Q) (window : nat) :
  exists l,
    calculate_moving_average data window = Ret l /\
    length l = length data /\
    forall i, (i < length data)%nat ->
      nth i l 0
      = if (window =? 0)%nat || (i + 1 <? window)%nat then nth i data 0
        else np_mean (firstn window (skipn (i + 1 - window) data)).
Proof.
  unfold calculate_moving_average.
  destruct data as [|a data']; [exists []; cbn; repeat split; intros; lia|].
  destruct (moving_average_nth (a :: data') window) as [Hlen Hnth].
  eexists. split; [reflexivity|]. split; [exact Hlen | exact Hnth].
Qed.

Lemma in_window {A} (w k : nat) (l : list A) (x : A) :
  In x (firstn w (skipn k l)) -> In x l.
Proof.
  intros H. rewrite <- (firstn_skipn k l). apply in_or_app. right.
  rewrite <- (firstn_skipn w (skipn k l)). apply in_or_app. now left.
Qed.

Lemma np_sum_within (lo hi : Q) (l : list Q) :
  within lo hi l -> lo * Qlen l <= np_sum l <= hi * Qlen l.
Proof.
  induction 1 as [|v l Hv Hl IH].
  - change (Qlen (@nil Q)) with 0. change (np_sum []) with 0. lra.
  - pose proof (Qlen_cons v l) as Hc. rewrite np_sum_cons.
    destruct Hv, IH. split; rewrite Hc; lra.
Qed.

Lemma np_mean_within (lo hi : Q) (l : list Q) :
  l <> [] -> within lo hi l -> lo <= np_mean l <= hi.
Proof.
  intros Hne Hl. pose proof (np_sum_within lo hi l Hl) as [H1 H2].
  assert (Hpos : 0 < Qlen l).
  { apply Qlen_pos. destruct l; [congruence | cbn; lia]. }
  unfold np_mean. split.
  - apply Qle_shift_div_l; auto.
  - apply Qle_shift_div_r; auto.
Qed.



(** ** evaluate_forecast *)

Lemma zip_with_length {A} (f : Q -> Q -> A) (xs ys : list Q) :
  length xs = length ys -> length (zip_with f xs ys) = length xs.
Proof.
  revert ys. induction xs as [|x xs IH]; intros [|y ys] H;
    try discriminate; cbn; auto.
Qed.

Lemma zip_with_Forall {A} (f : Q -> Q -> A) (P : A -> Prop)
      (xs ys : list Q) :
  (forall x y, In x xs -> In y ys -> P (f x y)) ->
  Forall P (zip_with f xs ys).
Proof.
  revert ys. induction xs as [|x xs IH]; intros [|y ys] H; cbn;
    constructor.
  - apply H; now left.
  - apply IH. intros a b Ha Hb. apply H; now right.
Qed.

Lemma np_sum_nonneg (l : list Q) : Forall (Qle 0) l -> 0 <= np_sum l.
Proof.
  induction 1 as [|v l Hv Hl IH]; [cbn; lra|]. rewrite np_sum_cons. lra.
Qed.

Lemma np_sum_zero (l : list Q) : Forall (fun v => v == 0) l -> np_sum l == 0.
Proof.
  induction 1 as [|v l Hv Hl IH]; [reflexivity|].
  rewrite np_sum_cons, Hv, IH. reflexivity.
Qed.

Lemma np_mean_nonneg (l : list Q) : Forall (Qle 0) l -> 0 <= np_mean l.
Proof.
  intros H. unfold np_mean. destruct l as [|a l]; [discriminate|].
  apply Qle_shift_div_l; [apply Qlen_pos; cbn; lia|].
  pose proof (np_sum_nonneg _ H). lra.
Qed.


Lemma sq_nonneg (x : Q) : 0 <= sq x.
Proof. unfold sq. nra. Qed.

Lemma np_var_nonneg (l : list Q) : 0 <= np_var l.
Proof.
  unfold np_var. apply np_mean_nonneg. apply Forall_forall.
  intros v Hv. apply in_map_iff in Hv. destruct Hv as [x [<- _]].
  apply sq_nonneg.
Qed.

Lemma float_abs_abs_value (z : float) : abs_value (float_abs z).
Proof. destruct z; cbn; constructor. apply Qabs_nonneg. Qed.

Lemma float_sum_abs_value (l : list float) :
  Forall abs_value l -> abs_value (fold_right float_add (Fin 0) l).
Proof.
  induction 1 as [|z l Hz Hl IH]; cbn; [constructor; lra|].
  destruct Hz, IH; cbn; constructor. lra.
Qed.

Lemma float_sum_finite (l : list float) :
  Forall (fun z => exists q, z = Fin q /\ 0 <= q) l ->
  exists q, fold_right float_add (Fin 0) l = Fin q /\ 0 <= q.
Proof.
  induction 1 as [|z l [x [-> Hx]] Hl [q [E Hq]]]; cbn.
  - exists 0. split; [reflexivity | lra].
  - rewrite E. exists (x + q). split; [reflexivity | lra].
Qed.

Lemma float_sum_not_finite (l : list float) :
  Forall abs_value l -> Exists not_finite l ->
  not_finite (fold_right float_add (Fin 0) l).
Proof.
  intros Ha He. induction He as [z l Hz | z l He IH].
  - inversion Ha as [|z' l' _ Hl]; subst.
    pose proof (float_sum_abs_value l Hl) as Hs. cbn.
    destruct Hz, Hs; cbn; constructor.
  - inversion Ha as [|z' l' Hz Hl]; subst. specialize (IH Hl). cbn.
    destruct Hz, IH; cbn; constructor.
Qed.

Section Evaluation.
Context {N : Numerics}.

Lemma evaluate_forecast_valid (actual predicted : list Q) :
  actual <> [] -> length actual = length predicted ->
  evaluate_forecast actual predicted
  = Ret (Ok {| mse := mean_squared_error actual predicted;
               rmse := np_sqrt (mean_squared_error actual predicted);
               mae := mean_absolute_error actual predicted;
               mape :=
                 float_mul_q
                   (float_mean
                      (map float_abs
                           (zip_with (fun a p => np_div (a - p) a)
                                     actual predicted)))
                   100;
               fm_r_squared :=
                 if Qltb 0 (np_sum (map (fun a => sq (a - np_mean actual))
                                        actual))
                 then 1 - np_sum (zip_with (fun a p => sq (a - p))
                                           actual predicted)
                          / np_sum (map (fun a => sq (a - np_mean actual))
                                        actual)
                 else 0 |}).
Proof.
  intros Hne Hlen. unfold evaluate_forecast.
  rewrite <- Hlen, Nat.eqb_refl.
  destruct actual as [|a actual']; [congruence|]. reflexivity.
Qed.

Lemma mape_scale (l : list float) :
  l <> [] -> Forall abs_value l ->
  (Forall (fun z => exists q, z = Fin q /\ 0 <= q) l ->
   exists q, float_mul_q (float_mean l) 100 = Fin q /\ 0 <= q) /\
  (Exists not_finite l -> not_finite (float_mul_q (float_mean l) 100)).
Proof.
  intros Hne Ha.
  assert (Hpos : 0 < Qlen l).
  { apply Qlen_pos. destruct l; [congruence | cbn; lia]. }
  assert (Hn0 : Qeq_bool (Qlen l) 0 = false).
  { destruct (Qeq_bool (Qlen l) 0) eqn:E; [|reflexivity].
    apply Qeq_bool_iff in E. lra. }
  assert (Hnn : Qltb (Qlen l) 0 = false) by (apply Qltb_ge; lra).
  unfold float_mean. destruct l as [|z0 l0] eqn:El; [congruence|].
  rewrite <- El in *. split.
  - intros Hf. destruct (float_sum_finite l Hf) as [q [E Hq]].
    rewrite E. cbn [float_div_q]. unfold np_div. rewrite Hn0.
    cbn [float_mul_q]. eexists. split; [reflexivity|].
    assert (0 <= q / Qlen l) by (apply Qle_shift_div_l; lra). lra.
  - intros He. pose proof (float_sum_not_finite l Ha He) as Hs.
    destruct Hs; cbn [float_div_q]; rewrite ?Hnn; cbn; constructor.
Qed.

End Evaluation.

(** X5: [evaluate_forecast] computes metrics exactly when both sequences
    are non-empty and of the same length; in every other case it returns
    the error result 'Invalid input for forecast evaluation' (nothing is
    raised). *)
Theorem evaluate_forecast_accepts (N : Numerics) (actual predicted : list Q) :
  ((exists m, evaluate_forecast actual predicted = Ret (Ok m))
   <-> (actual <> [] /\ length actual = length predicted))
  /\ ((exists m, evaluate_forecast actual predicted = Ret (Ok m))
      \/ evaluate_forecast actual predicted
         = Ret (ErrorDict "Invalid input for forecast evaluation")).
Proof.
  assert (Hbad : actual = [] \/ length actual <> length predicted ->
                 evaluate_forecast actual predicted
                 = Ret (ErrorDict "Invalid input for forecast evaluation")).
  { intros H. unfold evaluate_forecast.
    destruct actual as [|a actual']; [reflexivity|].
    destruct H as [H | H]; [discriminate|].
    apply Nat.eqb_neq in H. rewrite H.
    cbn [length Nat.eqb orb negb]. now rewrite orb_true_r. }
  destruct actual as [|a actual'].
  { split; [|right; apply Hbad; now left].
    split; [|intros [H _]; congruence].
    intros [m E]. rewrite Hbad in E by now left. discriminate. }
  destruct (Nat.eq_dec (length (a :: actual')) (length predicted))
    as [He | Hn].
  - assert (Hok : exists m,
               evaluate_forecast (a :: actual') predicted = Ret (Ok m)).
    { eexists. apply evaluate_forecast_valid; [discriminate | exact He]. }
    split; [|now left]. split; [|intros _; exact Hok].
    intros _. split; [discriminate | exact He].
  - split; [|right; apply Hbad; now right].
    split; [|intros [_ H]; contradiction].
    intros [m E]. rewrite Hbad in E by now right. discriminate.
Qed.

(** X6: a zero among the actual values is not an error: on valid input
    [evaluate_forecast] still returns its metrics, and the percentage
    error among them is infinite or NaN. *)
Theorem evaluate_forecast_zero_actual
        (N : Numerics) (actual predicted : list Q) :
  length actual = length predicted ->
  Exists (fun a => a == 0) actual ->
  exists m,
    evaluate_forecast actual predicted = Ret (Ok m) /\
    not_finite (mape m).
Proof.
  intros Hlen Hz.
  assert (Hne : actual <> []) by (intros ->; inversion Hz).
  rewrite (evaluate_forecast_valid _ _ Hne Hlen).
  eexists. split; [reflexivity|]. cbn [mape].
  set (terms := map float_abs
                    (zip_with (fun a p => np_div (a - p) a) actual predicted)).
  assert (Hterms_ne : terms <> []).
  { intros H. apply (f_equal (@length float)) in H. unfold terms in H.
    rewrite length_map, zip_with_length in H by exact Hlen.
    destruct actual; [congruence | discriminate]. }
  assert (Hterms : Forall abs_value terms).
  { apply Forall_forall. intros z Hz'. apply in_map_iff in Hz'.
    destruct Hz' as [x [<- _]]. apply float_abs_abs_value. }
  apply (mape_scale terms Hterms_ne Hterms).
  unfold terms. clear - Hz Hlen. revert predicted Hlen.
  induction Hz as [a actual Ha | a actual Hz IH];
    intros [|p predicted] Hlen; try discriminate; cbn [map zip_with].
  - apply Exists_cons_hd. unfold np_div.
    apply Qeq_bool_iff in Ha. rewrite Ha.
    destruct (Qeq_bool (a - p) 0); cbn [float_abs]; constructor.
  - apply Exists_cons_tl. apply IH. now injection Hlen.
Qed.

Lemma evaluate_forecast_zero_actual_witness :
  exists m,
    evaluate_forecast (N := reference_numerics) [10; 0; 30] [12; 18; 33]
    = Ret (Ok m) /\
    not_finite (mape m).
Proof.
  apply (evaluate_forecast_zero_actual reference_numerics
                                       [10; 0; 30] [12; 18; 33]).
  - reflexivity.
  - apply Exists_cons_tl, Exists_cons_hd. reflexivity.
Defined.



(** ** calculate_trend *)

(** X8: [calculate_trend] always returns a number: 0 for fewer than two
    values or when the fit fails, and otherwise the slope of the fit, the
    same slope that [analyze_trend] reports whenever it returns a
    result. *)
Theorem calculate_trend_slope (N : Numerics) (data : list Q) :
  (exists s, calculate_trend data = Ret s) /\
  ((length data <? 2)%nat = true -> calculate_trend data = Ret 0) /\
  (forall e, np_polyfit (np_arange (length data)) data = Raise e ->
             calculate_trend data = Ret 0) /\
  (forall r, analyze_trend data = Ret (Ok r) ->
             calculate_trend data = Ret (slope r)).
Proof.
  unfold calculate_trend, analyze_trend, analyze_trend_body.
  destruct (length data <? 2)%nat eqn:Hlen.
  - cbn. repeat split; eauto. intros r H. discriminate H.
  - destruct (np_polyfit _ _) as [[s i]|e]; cbn [bind try_except].
    + repeat split; eauto; try discriminate.
      intros r. destruct (2 <=? length data)%nat; cbn [bind].
      * destruct (py_div _ _); cbn [bind]; [|discriminate].
        now intros [= <-].
      * now intros [= <-].
    + repeat split; eauto; discriminate.
Qed.

(** X9: with the exact least-squares fit, [calculate_trend] is positive on
    every strictly increasing series of at least two values, a first
    value of zero included. *)
Theorem calculate_trend_increasing (N : Numerics) (data : list Q) :
  (forall x y, np_polyfit x y = least_squares x y) ->
  strictly_increasing data -> (2 <= length data)%nat ->
  exists s, calculate_trend data = Ret s /\ 0 < s.
Proof.
  intros Hfit Hinc H2.
  destruct (least_squares_slope_pos data Hinc H2) as [s [i [Els Hs]]].
  unfold calculate_trend.
  destruct (length data <? 2)%nat eqn:Hlen;
    [apply Nat.ltb_lt in Hlen; lia|].
  rewrite Hfit, Els. cbn. eauto.
Qed.

Lemma calculate_trend_increasing_witness :
  exists s, calculate_trend (N := reference_numerics) [0; 1; 3] = Ret s
            /\ 0 < s.
Proof.
  apply (calculate_trend_increasing reference_numerics [0; 1; 3]).
  - reflexivity.
  - repeat constructor.
  - cbn. lia.
Defined.

(** ** analyze_trend on a constant series *)

Lemma np_sum_repeat (c : Q) (n : nat) :
  np_sum (repeat c n) == inject_Z (Z.of_nat n) * c.
Proof.
  induction n as [|n IH]; [cbn; ring|].
  cbn [repeat]. rewrite np_sum_cons, IH, Nat2Z.inj_succ, <- Z.add_1_r.
  rewrite inject_Z_plus. change (inject_Z 1) with 1. ring.
Qed.

Lemma zip_mul_repeat (c : Q) (xs : list Q) :
  np_sum (zip_mul xs (repeat c (length xs))) == c * np_sum xs.
Proof.
  induction xs as [|x xs IH]; [cbn; ring|].
  cbn [length repeat zip_mul]. rewrite !np_sum_cons, IH. ring.
Qed.

Lemma cov_num_constant (c : Q) (xs : list Q) :
  cov_num xs (repeat c (length xs)) == 0.
Proof.
  unfold cov_num. rewrite zip_mul_repeat, np_sum_repeat.
  unfold Qlen. ring.
Qed.

Lemma np_mean_repeat (c : Q) (n : nat) :
  (0 < n)%nat -> np_mean (repeat c n) == c.
Proof.
  intros Hn. unfold np_mean, Qlen. rewrite np_sum_repeat, repeat_length.
  assert (Hpos : 0 < inject_Z (Z.of_nat n))
    by (change 0 with (inject_Z 0); rewrite <- Zlt_Qlt; lia).
  field. lra.
Qed.

(** X10: with the exact least-squares fit, a constant series of at least
    two values, the constant not zero, has slope 0, direction 'stable'
    and a percentage change of 0. *)
Theorem analyze_trend_constant (N : Numerics) (c : Q) (n : nat) :
  (forall x y, np_polyfit x y = least_squares x y) ->
  (2 <= n)%nat -> ~ c == 0 ->
  exists r,
    analyze_trend (repeat c n) = Ret (Ok r) /\
    slope r == 0 /\ direction r = stable /\
    percentage_change r == 0.
Proof.
  intros Hfit H2 Hc. unfold analyze_trend, analyze_trend_body.
  rewrite repeat_length.
  destruct (n <? 2)%nat eqn:Hlen; [apply Nat.ltb_lt in Hlen; lia|].
  rewrite Hfit. unfold least_squares.
  destruct (np_arange n) as [|x0 xs'] eqn:Ex.
  { apply (f_equal (@length Q)) in Ex.
    unfold np_arange in Ex. rewrite arange_from_length in Ex.
    cbn in Ex. lia. }
  rewrite <- Ex.
  assert (Hxl : length (np_arange n) = n) by apply arange_from_length.
  rewrite Hxl, repeat_length, Nat.eqb_refl. cbn [negb bind].
  destruct (2 <=? n)%nat eqn:H2'; [|apply Nat.leb_gt in H2'; lia].
  assert (Hfirst : first (repeat c n) = c) by (destruct n; [lia | reflexivity]).
  assert (Hlast : last_value (repeat c n) = c).
  { unfold last_value. clear - H2. destruct n as [|n]; [lia|].
    clear H2. induction n as [|n IH]; [reflexivity|].
    change (repeat c (S (S n))) with (c :: repeat c (S n)).
    change (last (repeat c (S n)) 0 = c). exact IH. }
  rewrite Hfirst, Hlast. unfold py_div.
  destruct (Qeq_bool c 0) eqn:Ec; [apply Qeq_bool_iff in Ec; contradiction|].
  cbn [bind try_except].
  set (s := if Qeq_bool (cov_num (np_arange n) (np_arange n)) 0 then 0
            else cov_num (np_arange n) (repeat c n)
                 / cov_num (np_arange n) (np_arange n)).
  assert (Hs : s == 0).
  { unfold s.
    destruct (Qeq_bool (cov_num (np_arange n) (np_arange n)) 0);
      [reflexivity|].
    rewrite <- Hxl at 2. rewrite cov_num_constant. unfold Qdiv. ring. }
  eexists. split; [reflexivity|].
  cbn [slope direction percentage_change]. fold s.
  split; [exact Hs|]. split.
  - assert (Habs : Qltb (Qabs s) (1 # 100) = true).
    { apply Qltb_lt. rewrite Hs. reflexivity. }
    now rewrite Habs.
  - field. exact Hc.
Qed.

Lemma analyze_trend_constant_witness :
  exists r,
    analyze_trend (N := reference_numerics) (repeat 7 4) = Ret (Ok r) /\
    slope r == 0 /\ direction r = stable /\
    percentage_change r == 0.
Proof.
  apply (analyze_trend_constant reference_numerics 7 4).
  - reflexivity.
  - lia.
  - discriminate.
Defined.

(** ** forecast_with_intervals: the bounds bracket the forecast *)

Lemma Qmax0_le (f w : Q) : 0 <= f -> 0 <= w -> Qmax0 (f - w) <= f.
Proof.
  intros Hf Hw. unfold Qmax0. destruct (Qltb 0 (f - w)); lra.
Qed.

Lemma interval_brackets (z : Q) (l se : list Q) :
  0 <= z -> Forall (Qle 0) l -> Forall (Qle 0) se ->
  Forall bracketed
    (combine (map (fun '(f, s) => Qmax0 (f - z * s)) (combine l se))
             (combine l (map (fun '(f, s) => f + z * s) (combine l se)))).
Proof.
  intros Hz Hl. revert se. induction Hl as [|f l Hf Hl IH]; intros se Hse.
  - constructor.
  - destruct Hse as [|s se Hs Hse]; [constructor|].
    cbn [combine map]. constructor; [|now apply IH].
    unfold bracketed. cbn [fst snd].
    assert (0 <= z * s) by (apply Qmult_le_0_compat; assumption).
    split; [now apply Qmax0_le | lra].
Qed.

Lemma percent_brackets (l : list Q) :
  Forall (Qle 0) l ->
  Forall bracketed
    (combine (map (fun f => Qmax0 (f * (8 # 10))) l)
             (combine l (map (fun f => f * (12 # 10)) l))).
Proof.
  induction 1 as [|f l Hf Hl IH]; [constructor|].
  cbn [combine map]. constructor; [|exact IH].
  unfold bracketed. cbn [fst snd]. split; [|lra].
  unfold Qmax0. destruct (Qltb 0 (f * (8 # 10))); lra.
Qed.

(** X11: with a non-negative [np.sqrt], on a series of non-negative values
    [forecast_with_intervals] returns as many lower as upper bounds, and
    at every position the lower bound is at most the point forecast and
    the upper bound at least the point forecast. *)
Theorem forecast_with_intervals_brackets
        (N : Numerics) (data : list Q) (periods : nat) (alpha : Q)
        (method : string) :
  (forall x, 0 <= np_sqrt x) -> Forall (Qle 0) data ->
  exists r,
    forecast_with_intervals data periods alpha method = Ret r /\
    length (lower_bound r) = length (upper_bound r) /\
    Forall bracketed
           (combine (lower_bound r) (combine (forecast r) (upper_bound r))).
Proof.
  intros Hsqrt Hd. unfold forecast_with_intervals.
  destruct (length data <? 3)%nat.
  - eexists. split; [reflexivity|]. cbn. split; [reflexivity|].
    induction periods as [|n IH]; cbn; constructor; [|exact IH].
    unfold bracketed. cbn. lra.
  - destruct (predict_nonneg data periods method Hd) as [l [El Hl]].
    rewrite El. cbn [bind].
    destruct (0 <? length (diff data))%nat; cbn [try_except].
    + eexists. split; [reflexivity|].
      cbn [lower_bound upper_bound forecast].
      split; [now rewrite !length_map|].
      apply interval_brackets; [unfold z_score_95; lra | exact Hl |].
      apply Forall_forall. intros v Hv. apply in_map_iff in Hv.
      destruct Hv as [k [<- _]].
      apply Qmult_le_0_compat; [unfold np_std|]; apply Hsqrt.
    + eexists. split; [reflexivity|].
      cbn [lower_bound upper_bound forecast].
      split; [now rewrite !length_map|].
      now apply percent_brackets.
Qed.

Lemma reference_sqrt_nonneg : forall x, 0 <= np_sqrt (Numerics := reference_numerics) x.
Proof.
  intros x. cbn. unfold approx_sqrt, Qle. cbn.
  pose proof (Z.sqrt_nonneg (Qnum x * Z.pos (Qden x) * 1000000000000)). lia.
Qed.

Lemma forecast_with_intervals_brackets_witness :
  exists r,
    forecast_with_intervals (N := reference_numerics)
                            [3; 0; 6; 5; 7] 3 (5 # 100) "linear" = Ret r /\
    length (lower_bound r) = length (upper_bound r) /\
    Forall bracketed
           (combine (lower_bound r) (combine (forecast r) (upper_bound r))).
Proof.
  apply (forecast_with_intervals_brackets reference_numerics
           [3; 0; 6; 5; 7] 3 (5 # 100) "linear").
  - exact reference_sqrt_nonneg.
  - repeat constructor; discriminate.
Defined.

(** ** detect_seasonality *)

Section Seasonality.
Context {N : Numerics}.

Lemma try_period_score (ts : list Q) (best : nat * float) (p : nat) :
  try_period ts best p
  = match period_score ts p with
    | Some s => if float_lt s (snd best) then (p, s) else best
    | None => best
    end.
Proof.
  unfold try_period, period_score.
  destruct (2 * p <=? length ts)%nat; [|reflexivity].
  destruct (seasonal_decompose ts additive p) as [d|e]; [|reflexivity].
  destruct (0 <? length (dropna (dr_resid d)))%nat; [|reflexivity].
  destruct (Qltb 0 (np_var (dropna (dr_resid d)))); reflexivity.
Qed.

(** A computable ratio is a non-negative number or plus infinity. *)
Lemma period_score_range (ts : list Q) (p : nat) (s : float) :
  period_score ts p = Some s ->
  s = pos_inf \/ exists q, s = Fin q /\ 0 <= q.
Proof.
  unfold period_score.
  destruct (2 * p <=? length ts)%nat; [|discriminate].
  destruct (seasonal_decompose ts additive p) as [d|e]; [|discriminate].
  destruct (0 <? length (dropna (dr_resid d)))%nat; [|discriminate].
  destruct (Qltb 0 (np_var (dropna (dr_resid d)))) eqn:E; [|discriminate].
  cbn [andb]. intros [= <-]. apply Qltb_lt in E. unfold np_div.
  destruct (Qeq_bool (np_var (dr_seasonal d)) 0) eqn:Es.
  - left. destruct (Qeq_bool (np_var (dropna (dr_resid d))) 0) eqn:Er.
    + apply Qeq_bool_iff in Er. lra.
    + assert (Hn : Qltb (np_var (dropna (dr_resid d))) 0 = false)
        by (apply Qltb_ge; lra).
      now rewrite Hn.
  - right. eexists. split; [reflexivity|].
    apply Qeq_bool_neq in Es.
    pose proof (np_var_nonneg (dr_seasonal d)).
    apply Qle_shift_div_l; lra.
Qed.

End Seasonality.

(** X12: the period search of [detect_seasonality] returns 4 exactly when
    the ratio of residual to seasonal variance can be computed for period
    4 and is strictly lower than the ratio for period 12 (infinite where
    that one cannot be computed); in every other case, ties included, it
    returns 12. *)
Theorem auto_detect_period_lowest_ratio (N : Numerics) (ts : list Q) :
  (auto_detect_period ts = 4%nat
   <-> exists s4, period_score ts 4 = Some s4
                  /\ float_lt s4 (score_or_inf ts 12) = true)
  /\ (auto_detect_period ts = 4%nat \/ auto_detect_period ts = 12%nat).
Proof.
  unfold auto_detect_period, periods_to_try. cbn [fold_left].
  rewrite !try_period_score. cbn [snd]. unfold score_or_inf.
  assert (H12 :
    (match period_score ts 12 with
     | Some s => if float_lt s pos_inf then (12%nat, s) else (12%nat, pos_inf)
     | None => (12%nat, pos_inf)
     end)
    = (12%nat, match period_score ts 12 with
               | Some s => s
               | None => pos_inf
               end)).
  { destruct (period_score ts 12) as [s|] eqn:E; [|reflexivity].
    destruct (period_score_range ts 12 s E) as [-> | [q [-> _]]];
      reflexivity. }
  rewrite H12. cbn [snd].
  destruct (period_score ts 4) as [s4|].
  - destruct (float_lt s4 _) eqn:E; cbn [fst].
    + split; [|now left]. split; [eauto | reflexivity].
    + split; [|now right]. split; [discriminate|].
      intros [s [[= <-] H]]. congruence.
  - cbn [fst]. split; [|now right]. split; [discriminate|].
    intros [s [H _]]. discriminate.
Qed.

(** X13: whenever [detect_seasonality] returns a result, the seasonal
    strength is a number from 0 to 1 (both included), the
    seasonality is flagged significant exactly when the strength exceeds
    0.6, and the period is the one given or, if none is given, 12 or 4. *)
Theorem detect_seasonality_result
        (N : Numerics) (data : list Q) (period : option nat)
        (r : SeasonalityResult) :
  detect_seasonality data period = Ret (Ok r) ->
  (exists q, seasonal_strength r = Fin q /\ 0 <= q <= 1 /\
             (significant_seasonality r = true <-> 6 # 10 < q)) /\
  match period with
  | Some p => se_period r = p
  | None => se_period r = 12%nat \/ se_period r = 4%nat
  end /\
  (24 <= length data)%nat.
Proof.
  unfold detect_seasonality.
  destruct (length data <? 24)%nat eqn:Hlen; [discriminate|].
  apply Nat.ltb_ge in Hlen.
  destruct (seasonal_decompose data additive _) as [d|e]; cbn [bind try_except];
    [|discriminate].
  intros [= <-].
  cbn [seasonal_strength significant_seasonality se_period].
  split; [|split; [|exact Hlen]].
  - assert (H0 : exists q, Fin 0 = Fin q /\ 0 <= q <= 1 /\
                           (float_lt (Fin (6 # 10)) (Fin 0) = true
                            <-> 6 # 10 < q)).
    { exists 0. split; [reflexivity|]. split; [lra|].
      split; [discriminate | intros H; lra]. }
    destruct (0 <? length (dropna (dr_resid d)))%nat; [|exact H0].
    destruct (Qltb 0 (np_var (dropna (dr_resid d)))) eqn:E; [|exact H0].
    apply Qltb_lt in E.
    pose proof (np_var_nonneg (dr_seasonal d)) as Hs.
    set (sv := np_var (dr_seasonal d)) in *.
    set (rv := np_var (dropna (dr_resid d))) in *.
    unfold np_div.
    destruct (Qeq_bool (sv + rv) 0) eqn:Ez;
      [apply Qeq_bool_iff in Ez; lra|].
    eexists. split; [reflexivity|]. split.
    + split; [apply Qle_shift_div_l; lra | apply Qle_shift_div_r; lra].
    + cbn [float_lt]. apply Qltb_lt.
  - destruct period as [p|]; [reflexivity|].
    destruct (auto_detect_period_candidates N data); auto.
Qed.

Lemma detect_seasonality_result_witness :
  exists r,
    detect_seasonality (N := reference_numerics) quarterly_series (Some 4%nat)
    = Ret (Ok r) /\
    (exists q, seasonal_strength r = Fin q /\ 0 <= q <= 1 /\
               (significant_seasonality r = true <-> 6 # 10 < q)) /\
    se_period r = 4%nat /\
    (24 <= length quarterly_series)%nat.
Proof.
  destruct (classical_decompose_additive_returns quarterly_series 4 eq_refl)
    as [d Hd].
  assert (E : exists r,
             detect_seasonality (N := reference_numerics)
                                quarterly_series (Some 4%nat) = Ret (Ok r)).
  { unfold detect_seasonality.
    change (length quarterly_series <? 24)%nat with false. cbv iota.
    change (@seasonal_decompose reference_numerics) with classical_decompose.
    rewrite Hd. eexists. reflexivity. }
  destruct E as [r E]. exists r. split; [exact E|].
  exact (detect_seasonality_result reference_numerics quarterly_series
                                   (Some 4%nat) r E).
Defined.

(** ** detect_anomalies: what is flagged *)

Section AnomalyScan.
Context {N : Numerics}.

Lemma z_score_series_no_std (ts : list Q) (means stds : list (option Q)) :
  length means = length ts -> length stds = length ts ->
  Forall (fun s => s = None) stds ->
  z_score_series ts means stds = repeat NaN (length ts).
Proof.
  revert means stds.
  induction ts as [|x ts IH]; intros [|m means] [|s stds] Hm Hs Hn;
    try discriminate; [reflexivity|].
  inversion Hn as [|s' l' Hs0 Hn']; subst.
  cbn [z_score_series length repeat]. f_equal.
  - now destruct m.
  - apply IH; auto.
Qed.

(** A window of a single observation has no sample standard deviation. *)
Lemma rolling_std_window_1 (ts : list Q) :
  Forall (fun s => s = None) (rolling_std 1 ts).
Proof.
  unfold rolling_std. apply Forall_forall. intros s Hs.
  apply in_map_iff in Hs. destruct Hs as [i [<- _]].
  unfold window_at. destruct (i + 1 <? 1)%nat; [reflexivity|].
  unfold sample_var.
  assert (H : (length (firstn 1 (skipn (i + 1 - 1) ts)) <? 2)%nat = true).
  { apply Nat.ltb_lt. rewrite length_firstn. lia. }
  now rewrite H.
Qed.

Lemma scan_anomalies_all_nan (data : list Q) (threshold : Q) (i n : nat) :
  scan_anomalies data threshold i (repeat NaN n) = [].
Proof.
  revert i. induction n as [|n IH]; intros i; [reflexivity|]. apply IH.
Qed.

Lemma scan_anomalies_fields (data : list Q) (threshold : Q)
      (zs : list float) (i : nat) (a : Anomaly) :
  In a (scan_anomalies data threshold i zs) ->
  an_value a = nth (an_index a) data 0 /\
  an_type a = if float_pos (an_z_score a) then high else low.
Proof.
  revert i. induction zs as [|z zs IH]; intros i; [intros []|].
  cbn [scan_anomalies].
  destruct (negb (math_isnan z) && float_abs_gt z threshold).
  - intros [<- | Hin]; [split; reflexivity | exact (IH (S i) Hin)].
  - exact (IH (S i)).
Qed.

Lemma detect_anomalies_long (data : list Q) (threshold : Q) :
  (length data <? 3)%nat = false ->
  detect_anomalies data threshold
  = Ret (Ok {| anomalies :=
                 scan_anomalies data threshold 0 (anomaly_z_scores data);
               anomaly_indices :=
                 map an_index
                     (scan_anomalies data threshold 0
                                     (anomaly_z_scores data));
               anomaly_rate :=
                 Qlen (scan_anomalies data threshold 0
                                      (anomaly_z_scores data))
                 / Qlen data;
               an_threshold := threshold;
               z_scores := fillna0 (anomaly_z_scores data) |}).
Proof.
  intros Hlen. unfold detect_anomalies. rewrite Hlen. unfold py_div.
  destruct (Qeq_bool (Qlen data) 0) eqn:E; [|reflexivity].
  apply Qeq_bool_iff in E. apply Nat.ltb_ge in Hlen.
  pose proof (Qlen_pos data ltac:(lia)). lra.
Qed.

End AnomalyScan.

(** X14: a series of three, four or five values is never flagged: the
    window is a single observation, no z-score is defined, the list of
    anomalies is empty, the rate 0 and every reported z-score 0, whatever
    the values and the threshold. *)
Theorem detect_anomalies_small_series
        (N : Numerics) (data : list Q) (threshold : Q) :
  (3 <= length data <= 5)%nat ->
  exists r,
    detect_anomalies data threshold = Ret (Ok r) /\
    anomalies r = [] /\ anomaly_indices r = [] /\
    anomaly_rate r == 0 /\
    z_scores r = repeat (Fin 0) (length data).
Proof.
  intros Hlen.
  rewrite detect_anomalies_long by (apply Nat.ltb_ge; lia).
  assert (Hw : Nat.min 12 (length data / 3) = 1%nat).
  { assert (length data / 3 = 1)%nat.
    { symmetry. apply (Nat.div_unique _ 3 1 (length data - 3)); lia. }
    lia. }
  assert (Hz : anomaly_z_scores data = repeat NaN (length data)).
  { unfold anomaly_z_scores. rewrite Hw. apply z_score_series_no_std.
    - unfold rolling_mean. now rewrite length_map, length_seq.
    - unfold rolling_std. now rewrite length_map, length_seq.
    - apply rolling_std_window_1. }
  eexists. split; [reflexivity|].
  cbn [anomalies anomaly_indices anomaly_rate z_scores].
  rewrite Hz, scan_anomalies_all_nan.
  split; [reflexivity|]. split; [reflexivity|]. split.
  - change (Qlen (@nil Anomaly)) with 0. unfold Qdiv. ring.
  - unfold fillna0. generalize (length data) as n.
    induction n as [|n IH]; [reflexivity|]. cbn. now rewrite IH.
Qed.

Lemma detect_anomalies_small_series_witness :
  exists r,
    detect_anomalies (N := reference_numerics) [1; 1000; 1; 1] 2
    = Ret (Ok r) /\
    anomalies r = [] /\ anomaly_indices r = [] /\
    anomaly_rate r == 0 /\
    z_scores r = repeat (Fin 0) (length [1; 1000; 1; 1]).
Proof.
  apply (detect_anomalies_small_series reference_numerics
                                       [1; 1000; 1; 1] 2).
  cbn. lia.
Defined.

Lemma strongly_sorted_seq (a n : nat) : StronglySorted lt (seq a n).
Proof.
  revert a. induction n as [|n IH]; intros a; cbn; constructor; auto.
  apply Forall_forall. intros x Hx. apply in_seq in Hx. lia.
Qed.

Lemma strongly_sorted_filter {A} (R : A -> A -> Prop) (f : A -> bool)
      (l : list A) :
  StronglySorted R l -> StronglySorted R (filter f l).
Proof.
  induction 1 as [|a l Hs IH Ha]; cbn; [constructor|].
  destruct (f a); [|exact IH]. constructor; [exact IH|].
  rewrite Forall_forall in *. intros x Hx. apply filter_In in Hx.
  now apply Ha.
Qed.

(** X15: on a series of at least three values the anomaly rate lies
    between 0 and 1, the flagged positions are reported in increasing
    order, and every reported anomaly carries a position of the series,
    the value at that position, a z-score beyond the threshold, and the
    type 'high' exactly when its z-score is positive. *)
Theorem detect_anomalies_report
        (N : Numerics) (data : list Q) (threshold : Q) :
  (3 <= length data)%nat ->
  exists r,
    detect_anomalies data threshold = Ret (Ok r) /\
    0 <= anomaly_rate r <= 1 /\
    StronglySorted lt (anomaly_indices r) /\
    anomaly_indices r = map an_index (anomalies r) /\
    forall a, In a (anomalies r) ->
      (an_index a < length data)%nat /\
      an_value a = nth (an_index a) data 0 /\
      float_abs_gt (an_z_score a) threshold = true /\
      (an_type a = high <-> float_pos (an_z_score a) = true).
Proof.
  intros Hlen.
  rewrite detect_anomalies_long by (apply Nat.ltb_ge; lia).
  eexists. split; [reflexivity|].
  cbn [anomalies anomaly_indices anomaly_rate].
  set (found := scan_anomalies data threshold 0 (anomaly_z_scores data)).
  assert (Hidx : map an_index found
                 = filter (fun j =>
                             negb (math_isnan
                                     (nth (j - 0) (anomaly_z_scores data) NaN))
                             && float_abs_gt
                                  (nth (j - 0) (anomaly_z_scores data) NaN)
                                  threshold)
                          (seq 0 (length data))).
  { unfold found. rewrite scan_anomalies_indices.
    now rewrite anomaly_z_scores_length. }
  assert (Hcount : (length found <= length data)%nat).
  { rewrite <- (length_map an_index), Hidx.
    etransitivity; [apply filter_length_le|]. now rewrite length_seq. }
  assert (Hpos : 0 < Qlen data) by (apply Qlen_pos; lia).
  split; [|split; [|split; [reflexivity|]]].
  - split.
    + apply Qle_shift_div_l; [exact Hpos|].
      pose proof (Qlen_nonneg found). lra.
    + apply Qle_shift_div_r; [exact Hpos|].
      unfold Qlen. rewrite Qmult_1_l, <- Zle_Qle. lia.
  - rewrite Hidx. apply strongly_sorted_filter, strongly_sorted_seq.
  - intros a Ha.
    destruct (scan_anomalies_in _ _ _ _ _ Ha) as [Hr [_ [_ Hgt]]].
    destruct (scan_anomalies_fields _ _ _ _ _ Ha) as [Hv Ht].
    rewrite anomaly_z_scores_length in Hr.
    repeat split; auto; try lia.
    + rewrite Ht. destruct (float_pos (an_z_score a)); [auto | discriminate].
    + intros Hp. now rewrite Ht, Hp.
Qed.

Lemma detect_anomalies_report_witness :
  exists r,
    detect_anomalies (N := reference_numerics) [1; 1; 1; 1; 1; 9] 2
    = Ret (Ok r) /\
    0 <= anomaly_rate r <= 1 /\
    StronglySorted lt (anomaly_indices r) /\
    anomaly_indices r = map an_index (anomalies r) /\
    forall a, In a (anomalies r) ->
      (an_index a < length [1; 1; 1; 1; 1; 9])%nat /\
      an_value a = nth (an_index a) [1; 1; 1; 1; 1; 9] 0 /\
      float_abs_gt (an_z_score a) 2 = true /\
      (an_type a = high <-> float_pos (an_z_score a) = true).
Proof.
  apply (detect_anomalies_report reference_numerics [1; 1; 1; 1; 1; 9] 2).
  cbn. lia.
Defined.

(** ** detect_change_points: the points returned *)

Section ChangePointReport.
Context {N : Numerics}.

Lemma detect_change_points_long (data : list Q) (threshold : Q) :
  (length data <? 5)%nat = false ->
  exists groups reps,
    detect_change_points data threshold
    = Ret (Ok {| change_points := reps;
                 cumulative_sum :=
                   np_cumsum (map (fun v => v - np_mean data) data);
                 cp_threshold := threshold |}) /\
    Forall2 representative groups reps /\
    concat groups = candidates data threshold /\
    separated groups.
Proof.
  intros Hlen. unfold detect_change_points. rewrite Hlen.
  fold (candidates data threshold).
  destruct (group_change_points_clusters (candidates data threshold))
    as [groups [reps [E [Hrep [Hcat [_ Hsep]]]]]].
  rewrite E. exists groups, reps. auto.
Qed.

Lemma candidates_fields (data : list Q) (threshold : Q) (c : ChangePoint) :
  In c (candidates data threshold) ->
  (1 <= cp_index c < length data)%nat /\
  cp_value c = nth (cp_index c) data 0 /\
  cp_cumulative_sum c
  = nth (cp_index c) (np_cumsum (map (fun v => v - np_mean data) data)) 0 /\
  threshold * np_std (map (fun v => v - np_mean data) data)
  < Qabs (cp_cumulative_sum c).
Proof.
  unfold candidates, raw_change_points. intros Hc.
  apply in_flat_map in Hc. destruct Hc as [i [Hi Hc]].
  apply in_seq in Hi. unfold np_cumsum in Hi.
  rewrite cumsum_from_length, length_map in Hi.
  destruct (Qltb _ _) eqn:E; [|destruct Hc].
  destruct Hc as [<- | []]. cbn [cp_index cp_value cp_cumulative_sum].
  apply Qltb_lt in E. repeat split; auto; lia.
Qed.

End ChangePointReport.

Lemma representatives_five_apart (G : list (list ChangePoint))
      (reps : list ChangePoint) :
  Forall2 representative G reps -> separated G ->
  StronglySorted index_lt (concat G) ->
  StronglySorted five_apart reps.
Proof.
  induction 1 as [|g c G reps Hc HF IH]; intros Hsep Hs; [constructor|].
  assert (Hsep' : separated G).
  { inversion Hsep; subst; [constructor | assumption]. }
  assert (Hs' : StronglySorted index_lt (concat G)).
  { cbn [concat] in Hs. now apply strongly_sorted_app in Hs. }
  constructor; [now apply IH|].
  apply Forall_forall. intros c' Hc'.
  assert (Hin : In c' (concat G)).
  { clear - HF Hc'. induction HF as [|g' x G reps [Hx _] HF IH];
      [destruct Hc'|].
    cbn [concat]. apply in_or_app. destruct Hc' as [<- | Hc']; auto. }
  pose proof (clusters_far_apart g G c c' Hsep Hs (proj1 Hc) Hin).
  unfold five_apart. lia.
Qed.

(** X17: on a series of at least five values every returned change point
    is one of the raw candidates: its index is a position of the series
    other than the first, it carries the value and the cumulative sum of
    that position, and its cumulative sum exceeds the threshold times the
    standard deviation in absolute value; two returned change points are
    always at least five positions apart. *)
Theorem detect_change_points_report
        (N : Numerics) (data : list Q) (threshold : Q) :
  (5 <= length data)%nat ->
  exists r,
    detect_change_points data threshold = Ret (Ok r) /\
    StronglySorted five_apart (change_points r) /\
    forall c, In c (change_points r) ->
      (1 <= cp_index c < length data)%nat /\
      cp_value c = nth (cp_index c) data 0 /\
      cp_cumulative_sum c = nth (cp_index c) (cumulative_sum r) 0 /\
      threshold * np_std (map (fun v => v - np_mean data) data)
      < Qabs (cp_cumulative_sum c).
Proof.
  intros H5.
  destruct (detect_change_points_long data threshold)
    as [groups [reps [E [Hrep [Hcat Hsep]]]]]; [apply Nat.ltb_ge; lia|].
  rewrite E. eexists. split; [reflexivity|].
  cbn [change_points cumulative_sum].
  assert (Hs : StronglySorted index_lt (concat groups)).
  { rewrite Hcat. apply raw_change_points_sorted. }
  split; [now apply (representatives_five_apart groups)|].
  intros c Hc. apply candidates_fields. rewrite <- Hcat.
  clear - Hrep Hc. induction Hrep as [|g x G reps [Hx _] HF IH];
    [destruct Hc|].
  cbn [concat]. apply in_or_app. destruct Hc as [<- | Hc]; auto.
Qed.

Lemma detect_change_points_report_witness :
  exists r,
    detect_change_points (N := reference_numerics)
                         [0; 0; 0; 0; 0; 10; 10; 10; 10; 10] 1
    = Ret (Ok r) /\
    StronglySorted five_apart (change_points r) /\
    forall c, In c (change_points r) ->
      (1 <= cp_index c < length [0; 0; 0; 0; 0; 10; 10; 10; 10; 10])%nat /\
      cp_value c = nth (cp_index c) [0; 0; 0; 0; 0; 10; 10; 10; 10; 10] 0 /\
      cp_cumulative_sum c = nth (cp_index c) (cumulative_sum r) 0 /\
      1 * np_std (map (fun v =>
                         v - np_mean [0; 0; 0; 0; 0; 10; 10; 10; 10; 10])
                      [0; 0; 0; 0; 0; 10; 10; 10; 10; 10])
      < Qabs (cp_cumulative_sum c).
Proof.
  apply (detect_change_points_report
           reference_numerics [0; 0; 0; 0; 0; 10; 10; 10; 10; 10] 1).
  cbn. lia.
Defined.

(** ** Failure behaviour of the public methods *)

Lemma try_except_returns {A} (body : exc A) (handler : exn -> exc A) :
  (forall e, exists v, handler e = Ret v) ->
  exists v, try_except body handler = Ret v.
Proof.
  intros H. destruct body as [v|e]; cbn; [eauto | apply H].
Qed.

(** X18: on lists of numbers, with numbers for the threshold and the
    significance level and natural numbers for [periods], [window] and
    the period, no public method of the analyzer raises, whatever the
    numeric libraries do (fits that fail, decompositions that raise):
    every call returns a value. *)
Theorem analyzer_never_raises
        (N : Numerics) (data other : list Q) (period : option nat)
        (model : decomposition_model) (threshold alpha : Q)
        (periods window : nat) (method : string) :
  (exists v, analyze_trend data = Ret v) /\
  (exists v, detect_seasonality data period = Ret v) /\
  (exists v, detect_anomalies data threshold = Ret v) /\
  (exists v, predict data periods method = Ret v) /\
  (exists v, forecast_with_intervals data periods alpha method = Ret v) /\
  (exists v, calculate_trend data = Ret v) /\
  (exists v, detect_change_points data threshold = Ret v) /\
  (exists v, calculate_moving_average data window = Ret v) /\
  (exists v, calculate_growth_rate data = Ret v) /\
  (exists v, decompose_time_series data period model = Ret v) /\
  (exists v, evaluate_forecast data other = Ret v).
Proof.
  assert (Hfwi : exists v,
             forecast_with_intervals data periods alpha method = Ret v).
  { apply try_except_returns. intros e.
    destruct (predict_returns data periods method) as [l El].
    rewrite El. cbn. eauto. }
  repeat split;
    solve [ exact Hfwi
          | apply predict_returns
          | apply try_except_returns; intros e; eauto ].
Qed.

(** X19: [detect_anomalies] answers with an error result exactly for
    series of fewer than three values, [detect_change_points] exactly for
    series of fewer than five: from these lengths on both always deliver
    a result. *)
Theorem insufficient_data_errors
        (N : Numerics) (data : list Q) (threshold : Q) :
  ((exists msg, detect_anomalies data threshold = Ret (ErrorDict msg))
   <-> (length data < 3)%nat) /\
  ((exists msg, detect_change_points data threshold = Ret (ErrorDict msg))
   <-> (length data < 5)%nat).
Proof.
  split; split.
  - intros [msg E]. destruct (length data <? 3)%nat eqn:Hlen;
      [now apply Nat.ltb_lt|].
    rewrite detect_anomalies_long in E by exact Hlen. discriminate.
  - intros H. apply Nat.ltb_lt in H. unfold detect_anomalies.
    rewrite H. cbn. eauto.
  - intros [msg E]. destruct (length data <? 5)%nat eqn:Hlen;
      [now apply Nat.ltb_lt|].
    destruct (detect_change_points_long data threshold Hlen)
      as [groups [reps [E' _]]].
    rewrite E' in E. discriminate.
  - intros H. apply Nat.ltb_lt in H. unfold detect_change_points.
    rewrite H. cbn. eauto.
Qed.

(** ** The forecast dates of [predict_deforestation] *)

Lemma future_date_month (year month i : Z) :
  (1 <= year)%Z -> (1 <= month <= 12)%Z -> (1 <= i)%Z ->
  (12 * year + month + i <= 12 * MAXYEAR + 12)%Z ->
  exists y' m',
    future_date year month i = Ret (y', m') /\
    (1 <= m' <= 12)%Z /\
    (12 * y' + m' = 12 * year + month + i)%Z.
Proof.
  intros Hy Hm Hi Hmax. unfold future_date, MAXYEAR in *.
  pose proof (Z.div_mod (month + i - 1) 12 ltac:(lia)) as Hdm.
  pose proof (Z.mod_pos_bound (month + i - 1) 12 ltac:(lia)) as Hb.
  assert (Hq : (0 <= (month + i - 1) / 12)%Z)
    by (apply Z.div_pos; lia).
  assert (Hr : ((1 <=? year + (month + i - 1) / 12)
                && (year + (month + i - 1) / 12 <=? 9999))%Z = true).
  { apply andb_true_iff. split; apply Z.leb_le; lia. }
  rewrite Hr. eexists _, _. split; [reflexivity|]. lia.
Qed.

Lemma future_dates_from_months (year month i : Z) (count : nat) :
  (1 <= year)%Z -> (1 <= month <= 12)%Z -> (1 <= i)%Z ->
  (12 * year + month + i + Z.of_nat count - 1 <= 12 * MAXYEAR + 12)%Z ->
  exists ds,
    future_dates_from year month i count = Ret ds /\
    length ds = count /\
    forall k, (k < count)%nat ->
      (1 <= snd (nth k ds (0, 0)) <= 12)%Z /\
      (12 * fst (nth k ds (0, 0)) + snd (nth k ds (0, 0))
       = 12 * year + month + i + Z.of_nat k)%Z.
Proof.
  intros Hy Hm. revert i. induction count as [|count IH]; intros i Hi Hmax.
  - exists []. repeat split; intros; lia.
  - destruct (future_date_month year month i Hy Hm Hi ltac:(lia))
      as [y' [m' [E [Hm' Heq]]]].
    destruct (IH (i + 1)%Z ltac:(lia) ltac:(lia)) as [ds [Eds [Hlen Hds]]].
    cbn [future_dates_from]. rewrite E, Eds. cbn [bind].
    eexists. split; [reflexivity|]. split; [cbn; lia|].
    intros [|k] Hk; cbn [nth fst snd].
    + lia.
    + destruct (Hds k ltac:(lia)) as [H1 H2]. lia.
Qed.

(** X20: for a last historical month [(year, month)] and a number of
    periods that does not lead beyond December 9999, the prediction
    handler builds exactly [periods] dates, and the [k]-th of them
    (counting from 0) is a valid month, [k + 1] months after the last
    historical one. *)
Theorem future_dates_months (year month periods : Z) :
  (1 <= year)%Z -> (1 <= month <= 12)%Z -> (0 <= periods)%Z ->
  (12 * year + month + periods <= 12 * MAXYEAR + 12)%Z ->
  exists ds,
    future_dates year month periods = Ret ds /\
    length ds = Z.to_nat periods /\
    forall k, (k < Z.to_nat periods)%nat ->
      (1 <= snd (nth k ds (0, 0)) <= 12)%Z /\
      (12 * fst (nth k ds (0, 0)) + snd (nth k ds (0, 0))
       = 12 * year + month + Z.of_nat k + 1)%Z.
Proof.
  intros Hy Hm Hp Hmax. unfold future_dates.
  destruct (future_dates_from_months year month 1 (Z.to_nat periods)
              Hy Hm ltac:(lia) ltac:(lia)) as [ds [E [Hlen Hds]]].
  exists ds. split; [exact E|]. split; [exact Hlen|].
  intros k Hk. destruct (Hds k Hk) as [H1 H2]. lia.
Qed.

Lemma future_dates_months_witness :
  exists ds,
    future_dates 2024 11 4 = Ret ds /\
    length ds = Z.to_nat 4 /\
    forall k, (k < Z.to_nat 4)%nat ->
      (1 <= snd (nth k ds (0, 0)) <= 12)%Z /\
      (12 * fst (nth k ds (0, 0)) + snd (nth k ds (0, 0))
       = 12 * 2024 + 11 + Z.of_nat k + 1)%Z.
Proof.
  apply (future_dates_months 2024 11 4); unfold MAXYEAR; lia.
Defined.

(** The dates after November 2024: December 2024 to March 2025. *)
Example future_dates_november :
  future_dates 2024 11 4
  = Ret [(2024, 12); (2025, 1); (2025, 2); (2025, 3)]%Z.
Proof. reflexivity. Qed.

(** ** Linear extrapolation of a straight line *)

Lemma np_sum_affine (a b : Q) (xs : list Q) :
  np_sum (map (fun x => a + b * x) xs) == Qlen xs * a + b * np_sum xs.
Proof.
  induction xs as [|x xs IH].
  - change (Qlen (@nil Q)) with 0. cbn. ring.
  - cbn [map]. rewrite !np_sum_cons, IH, Qlen_cons. ring.
Qed.

Lemma zip_mul_affine (a b : Q) (xs : list Q) :
  np_sum (zip_mul xs (map (fun x => a + b * x) xs))
  == a * np_sum xs + b * np_sum (zip_mul xs xs).
Proof.
  induction xs as [|x xs IH]; [cbn; ring|].
  cbn [map zip_mul]. rewrite !np_sum_cons, IH. ring.
Qed.

Lemma cov_num_affine (a b : Q) (xs : list Q) :
  cov_num xs (map (fun x => a + b * x) xs) == b * cov_num xs xs.
Proof.
  unfold cov_num. rewrite zip_mul_affine, np_sum_affine. ring.
Qed.

Lemma least_squares_line (a b : Q) (n : nat) :
  (2 <= n)%nat ->
  exists s i,
    least_squares (np_arange n) (line a b n) = Ret (s, i) /\
    s == b /\ i == a.
Proof.
  intros H2. unfold line. set (xs := np_arange n).
  assert (Hlen : length xs = n) by apply arange_from_length.
  assert (Hd : 0 < cov_num xs xs).
  { apply cov_num_pos;
      [apply arange_from_increasing | apply arange_from_increasing
       | reflexivity | rewrite Hlen; lia]. }
  assert (Hpos : 0 < Qlen xs) by (apply Qlen_pos; lia).
  unfold least_squares.
  destruct xs as [|x0 xs'] eqn:Exs; [cbn in Hlen; lia|].
  rewrite <- Exs in *. rewrite length_map, Nat.eqb_refl. cbn [negb].
  destruct (Qeq_bool (cov_num xs xs) 0) eqn:E;
    [apply Qeq_bool_iff in E; lra|].
  eexists _, _. split; [reflexivity|].
  assert (Hs : cov_num xs (map (fun x => a + b * x) xs) / cov_num xs xs == b).
  { rewrite cov_num_affine. field. lra. }
  split; [exact Hs|].
  rewrite Hs, np_sum_affine. field. lra.
Qed.

Lemma Qmax0_eq (x y : Q) : x == y -> Qmax0 x == Qmax0 y.
Proof.
  intros H. unfold Qmax0.
  destruct (Qltb 0 x) eqn:Ex, (Qltb 0 y) eqn:Ey; try lra.
  - apply Qltb_lt in Ex. apply Qltb_ge in Ey. lra.
  - apply Qltb_ge in Ex. apply Qltb_lt in Ey. lra.
Qed.

Lemma Forall2_Qeq_map {A} (f g : A -> Q) (l : list A) :
  (forall x, f x == g x) -> Forall2 Qeq (map f l) (map g l).
Proof.
  intros H. induction l; cbn; constructor; auto.
Qed.

(** X21: with the exact least-squares fit, the linear method continues a
    straight line: on the series [a + b * x], [x = 0 .. n - 1], of at
    least three values, [predict] with method 'linear' returns the values
    of the same line at [x = n, n + 1, ...], each clamped at 0. *)
Theorem predict_linear_continues_line
        (N : Numerics) (a b : Q) (n periods : nat) :
  (forall x y, np_polyfit x y = least_squares x y) ->
  (3 <= n)%nat ->
  exists l,
    predict (line a b n) periods "linear" = Ret l /\
    Forall2 Qeq l
            (map (fun k => Qmax0 (a + b * inject_Z (Z.of_nat (n + k))))
                 (seq 0 periods)).
Proof.
  intros Hfit H3.
  assert (Hlen : length (line a b n) = n).
  { unfold line, np_arange. now rewrite length_map, arange_from_length. }
  destruct (least_squares_line a b n ltac:(lia)) as [s [i [E [Hs Hi]]]].
  unfold predict. rewrite Hlen.
  destruct (n <? 3)%nat eqn:H; [apply Nat.ltb_lt in H; lia|].
  cbn [String.eqb Ascii.eqb Bool.eqb]. unfold _predict_linear.
  rewrite Hlen. destruct (n <? 2)%nat eqn:H'; [apply Nat.ltb_lt in H'; lia|].
  rewrite Hfit, E. cbn [bind try_except].
  eexists. split; [reflexivity|].
  rewrite <- seq_shift, map_map. apply Forall2_Qeq_map. intros k.
  apply Qmax0_eq. unfold Qlen. rewrite Hlen, Hs, Hi.
  rewrite Nat2Z.inj_add, Nat2Z.inj_succ, <- Z.add_1_r, !inject_Z_plus.
  change (inject_Z 1) with 1. ring.
Qed.

Lemma predict_linear_continues_line_witness :
  exists l,
    predict (N := reference_numerics) (line 10 (-3) 4) 3 "linear" = Ret l /\
    Forall2 Qeq l
            (map (fun k => Qmax0 (10 + (-3) * inject_Z (Z.of_nat (4 + k))))
                 (seq 0 3)).
Proof.
  apply (predict_linear_continues_line reference_numerics 10 (-3) 4 3).
  - reflexivity.
  - lia.
Defined.

(** ** analyze_trend: the fields of a result *)

(** X22: whenever [analyze_trend] returns a result, the direction is
    'stable' exactly for a slope of absolute value below 0.01,
    'increasing' exactly for a slope of at least 0.01 and 'decreasing'
    exactly for a slope of at most -0.01; R-squared is at most 1; start
    and end value are the first and last value and the count is the
    length of the series, which is at least 2. *)
Theorem analyze_trend_result
        (N : Numerics) (data : list Q) (r : TrendResult) :
  analyze_trend data = Ret (Ok r) ->
  (direction r = stable <-> Qabs (slope r) < 1 # 100) /\
  (direction r = increasing <-> 1 # 100 <= slope r) /\
  (direction r = decreasing <-> slope r <= - (1 # 100)) /\
  r_squared r <= 1 /\
  start_value r = first data /\ end_value r = last_value data /\
  data_points r = length data /\ (2 <= length data)%nat.
Proof.
  unfold analyze_trend, analyze_trend_body.
  destruct (length data <? 2)%nat eqn:Hlen; [discriminate|].
  apply Nat.ltb_ge in Hlen.
  destruct (np_polyfit _ _) as [[s i]|e]; cbn [bind try_except];
    [|discriminate].
  destruct (2 <=? length data)%nat eqn:H2; cbn [bind].
  2: { apply Nat.leb_gt in H2. lia. }
  destruct (py_div _ _) as [q|e]; cbn [bind]; [|discriminate].
  intros [= <-].
  cbn [direction slope r_squared start_value end_value data_points].
  assert (Hr2 : (if Qltb 0 (np_sum (map (fun yi => sq (yi - np_mean data))
                                        data))
                 then 1 - np_sum (map (fun p => sq (fst p - snd p))
                                      (combine data
                                         (map (fun xi => s * xi + i)
                                              (np_arange (length data)))))
                          / np_sum (map (fun yi => sq (yi - np_mean data))
                                        data)
                 else 0) <= 1).
  { destruct (Qltb 0 _) eqn:E; [|lra]. apply Qltb_lt in E.
    match goal with |- 1 - ?a / ?b <= 1 =>
      assert (0 <= a);
      [ apply np_sum_nonneg, Forall_forall; intros v Hv;
        apply in_map_iff in Hv; destruct Hv as [p [<- _]]; apply sq_nonneg
      | assert (0 <= a / b) by (apply Qle_shift_div_l; lra); lra ]
    end. }
  repeat split; auto; try lia.
  - destruct (Qltb (Qabs s) (1 # 100)) eqn:E; [intros _; now apply Qltb_lt|].
    destruct (Qltb 0 s); discriminate.
  - intros H. apply Qltb_lt in H. now rewrite H.
  - destruct (Qltb (Qabs s) (1 # 100)) eqn:E; [discriminate|].
    apply Qltb_ge in E. destruct (Qltb 0 s) eqn:E0; [|discriminate].
    intros _. apply Qltb_lt in E0. rewrite Qabs_pos in E; lra.
  - intros H. assert (E : Qltb (Qabs s) (1 # 100) = false).
    { apply Qltb_ge. rewrite Qabs_pos; lra. }
    assert (E0 : Qltb 0 s = true) by (apply Qltb_lt; lra).
    now rewrite E, E0.
  - destruct (Qltb (Qabs s) (1 # 100)) eqn:E; [discriminate|].
    apply Qltb_ge in E. destruct (Qltb 0 s) eqn:E0; [discriminate|].
    intros _. apply Qltb_ge in E0. rewrite Qabs_neg in E; lra.
  - intros H. assert (E : Qltb (Qabs s) (1 # 100) = false).
    { apply Qltb_ge. rewrite Qabs_neg; lra. }
    assert (E0 : Qltb 0 s = false) by (apply Qltb_ge; lra).
    now rewrite E, E0.
Qed.

Lemma analyze_trend_result_witness :
  exists r,
    analyze_trend (N := reference_numerics) [9; 7; 4] = Ret (Ok r) /\
    (direction r = stable <-> Qabs (slope r) < 1 # 100) /\
    (direction r = increasing <-> 1 # 100 <= slope r) /\
    (direction r = decreasing <-> slope r <= - (1 # 100)) /\
    r_squared r <= 1 /\
    start_value r = first [9; 7; 4] /\ end_value r = last_value [9; 7; 4] /\
    data_points r = length [9; 7; 4] /\ (2 <= length [9; 7; 4])%nat.
Proof.
  eexists. split; [reflexivity|].
  apply (analyze_trend_result reference_numerics [9; 7; 4]). reflexivity.
Defined.

(** ** forecast_with_intervals: one value per period *)

(** X23: with fitted models whose [forecast(steps)] has [steps] values,
    the point forecast, the lower bounds and the upper bounds returned by
    [forecast_with_intervals] all have exactly [periods] values. *)
Theorem forecast_with_intervals_lengths
        (N : Numerics) (data : list Q) (periods : nat) (alpha : Q)
        (method : string) :
  forecast_contract N ->
  exists r,
    forecast_with_intervals data periods alpha method = Ret r /\
    length (forecast r) = periods /\
    length (lower_bound r) = periods /\
    length (upper_bound r) = periods.
Proof.
  intros HC. unfold forecast_with_intervals.
  destruct (length data <? 3)%nat.
  - eexists. split; [reflexivity|]. cbn.
    repeat split; apply replicate_length.
  - destruct (predict_length data periods method HC) as [l [El Hl]].
    rewrite El. cbn [bind].
    destruct (0 <? length (diff data))%nat; cbn [try_except];
      eexists; (split; [reflexivity|]);
      cbn [forecast lower_bound upper_bound];
      rewrite ?length_map, ?length_combine, ?length_map,
              ?arange_from_length, Hl; repeat split; lia.
Qed.

Lemma forecast_with_intervals_lengths_witness :
  exists r,
    forecast_with_intervals (N := reference_numerics)
                            [3; 4; 6; 5; 7] 4 (5 # 100) "ets" = Ret r /\
    length (forecast r) = 4%nat /\
    length (lower_bound r) = 4%nat /\
    length (upper_bound r) = 4%nat.
Proof.
  apply (forecast_with_intervals_lengths reference_numerics
           [3; 4; 6; 5; 7] 4 (5 # 100) "ets").
  exact reference_contract.
Defined.

(** ** detect_anomalies on a constant series *)

Lemma z_score_series_nth (ts : list Q) (means stds : list (option Q))
      (i : nat) :
  length means = length ts -> length stds = length ts ->
  (i < length ts)%nat ->
  nth i (z_score_series ts means stds) NaN
  = match nth i means None, nth i stds None with
    | Some m, Some s => np_div (nth i ts 0 - m) s
    | _, _ => NaN
    end.
Proof.
  revert means stds i.
  induction ts as [|x ts IH]; intros [|m means] [|s stds] i Hm Hs Hi;
    try discriminate; [cbn in Hi; lia|].
  destruct i as [|i]; [reflexivity|].
  cbn [z_score_series nth]. apply IH; cbn in *; lia.
Qed.

Lemma all_nan (l : list float) :
  (forall i, (i < length l)%nat -> nth i l NaN = NaN) ->
  l = repeat NaN (length l).
Proof.
  induction l as [|z l IH]; intros H; [reflexivity|].
  cbn [length repeat]. f_equal.
  - exact (H 0%nat ltac:(cbn; lia)).
  - apply IH. intros i Hi. exact (H (S i) ltac:(cbn; lia)).
Qed.

Lemma np_mean_all_equal (c : Q) (l : list Q) :
  l <> [] -> Forall (fun v => v = c) l -> np_mean l == c.
Proof.
  intros Hne Hl.
  assert (Hw : within c c l).
  { unfold within. rewrite Forall_forall in *. intros v Hv.
    rewrite (Hl v Hv). lra. }
  pose proof (np_mean_within c c l Hne Hw). lra.
Qed.

(** X24: with a square root that is 0 at 0, a constant series of at
    least three values is never flagged: no z-score is defined on it,
    the list of anomalies is empty and the anomaly rate is 0. *)
Theorem detect_anomalies_constant
        (N : Numerics) (c threshold : Q) (n : nat) :
  (forall x, x == 0 -> np_sqrt x == 0) -> (3 <= n)%nat ->
  exists r,
    detect_anomalies (repeat c n) threshold = Ret (Ok r) /\
    anomalies r = [] /\ anomaly_rate r == 0 /\
    z_scores r = repeat (Fin 0) n.
Proof.
  intros Hsqrt Hn. set (data := repeat c n).
  assert (Hlen : length data = n) by apply repeat_length.
  rewrite detect_anomalies_long by (rewrite Hlen; apply Nat.ltb_ge; lia).
  assert (Hz : anomaly_z_scores data = repeat NaN n).
  { assert (Hall : anomaly_z_scores data
                   = repeat NaN (length (anomaly_z_scores data)));
      [|now rewrite anomaly_z_scores_length, Hlen in Hall].
    apply all_nan. rewrite anomaly_z_scores_length.
    intros i Hi. unfold anomaly_z_scores.
    set (w := Nat.min 12 (length data / 3)).
    rewrite z_score_series_nth;
      [| unfold rolling_mean; now rewrite length_map, length_seq
       | unfold rolling_std; now rewrite length_map, length_seq
       | exact Hi ].
    unfold rolling_mean, rolling_std. rewrite !map_seq_nth by exact Hi.
    destruct (window_at w data i) as [l|] eqn:Ew; [|reflexivity].
    cbn [option_map]. unfold sample_var.
    destruct (length l <? 2)%nat eqn:El; [reflexivity|].
    cbn [option_map]. apply Nat.ltb_ge in El.
    assert (Hl : Forall (fun v => v = c) l).
    { unfold window_at in Ew. destruct (i + 1 <? w)%nat; [discriminate|].
      injection Ew as <-. apply Forall_forall. intros v Hv.
      apply in_window in Hv. now apply repeat_spec in Hv. }
    assert (Hne : l <> []) by (destruct l; [cbn in El; lia | discriminate]).
    pose proof (np_mean_all_equal c l Hne Hl) as Hmean.
    assert (Hx : nth i data 0 = c).
    { apply (repeat_spec n). apply nth_In. exact Hi. }
    assert (Hvar : np_sum (map (fun v => sq (v - np_mean l)) l)
                   / (Qlen l - 1) == 0).
    { rewrite np_sum_zero; [unfold Qdiv; ring|].
      apply Forall_forall. intros v Hv. apply in_map_iff in Hv.
      destruct Hv as [x [<- Hx']]. rewrite Forall_forall in Hl.
      rewrite (Hl x Hx'). unfold sq. rewrite Hmean. ring. }
    unfold np_div.
    assert (Hs0 : Qeq_bool (np_sqrt (np_sum (map (fun v => sq (v - np_mean l))
                                                 l) / (Qlen l - 1))) 0
                  = true)
      by (apply Qeq_bool_iff, Hsqrt, Hvar).
    assert (Hd0 : Qeq_bool (nth i data 0 - np_mean l) 0 = true)
      by (apply Qeq_bool_iff; rewrite Hx, Hmean; ring).
    now rewrite Hs0, Hd0. }
  eexists. split; [reflexivity|].
  cbn [anomalies anomaly_rate z_scores].
  rewrite Hz, scan_anomalies_all_nan.
  split; [reflexivity|]. split.
  - change (Qlen (@nil Anomaly)) with 0. unfold Qdiv. ring.
  - unfold fillna0. clear. induction n as [|n IH]; [reflexivity|].
    cbn. now rewrite IH.
Qed.

Lemma reference_sqrt_zero :
  forall x, x == 0 -> np_sqrt (Numerics := reference_numerics) x == 0.
Proof.
  intros [p q] H. cbn. unfold approx_sqrt, Qeq in *. cbn in *.
  assert (p = 0)%Z by lia. subst p. reflexivity.
Qed.

Lemma detect_anomalies_constant_witness :
  exists r,
    detect_anomalies (N := reference_numerics) (repeat 7 9) 2 = Ret (Ok r) /\
    anomalies r = [] /\ anomaly_rate r == 0 /\
    z_scores r = repeat (Fin 0) 9.
Proof.
  apply (detect_anomalies_constant reference_numerics 7 2 9).
  - exact reference_sqrt_zero.
  - lia.
Defined.
